(** * A shallow embedding of the test-automation framework's support layer

    The development follows the Python sources:
    - [Py]            the fragment of the Python runtime the sources rely on
                      (exception classes and [isinstance], [int], [str.lower],
                      [str.startswith], [str]);
    - [BasePage]      src/pages/base_page.py: the decorators
                      [retry_on_exception], [log_action], [handle_exceptions]
                      and the four guarded accessors of [BasePage];
    - [ConfigManager] src/utils/config_manager.py: the singleton, the plain and
                      typed getters, [validate_config], [cache_config] and
                      [reload_config];
    - [DriverManager] src/utils/driver_manager.py: [get_driver],
                      [_create_driver] and [quit_driver];
    - [HomePage], [LoginPage]  the page objects of src/pages that call the
                      guarded accessors and the retried actions.

    Stateful code is written in explicit state-passing style: a method is a
    function from the state before the call to an [outcome] (a returned value or
    a raised exception) and the state after it. *)

From Stdlib Require Import ZArith DecimalString Ascii Lia.
From stdpp Require Import gmap strings list.

Local Open Scope Z_scope.

(* ===================================================================== *)
(** * The Python fragment *)
(* ===================================================================== *)

Module Py.

(** Exception classes raised or caught somewhere in the sources, with the
    builtin and library classes above them. *)
Inductive exn_class :=
  | BaseException | KeyboardInterrupt | Exception
  | ValueError | TypeError | LookupError | KeyError
  | OSError | FileNotFoundError
  | ConfigParserError | NoSectionError | NoOptionError | ParsingError
  | InterpolationError | InterpolationDepthError
  | InterpolationMissingOptionError | InterpolationSyntaxError
  | WebDriverException | TimeoutException | NoSuchElementException
  | StaleElementReferenceException.

#[global] Instance exn_class_eq_dec : EqDecision exn_class.
Proof. solve_decision. Defined.

(** The direct base class, as declared by Python, configparser and selenium. *)
Definition base_class (c : exn_class) : option exn_class :=
  match c with
  | BaseException => None
  | KeyboardInterrupt => Some BaseException
  | Exception => Some BaseException
  | ValueError | TypeError | LookupError | OSError
  | ConfigParserError | WebDriverException => Some Exception
  | KeyError => Some LookupError
  | FileNotFoundError => Some OSError
  | NoSectionError | NoOptionError | ParsingError
  | InterpolationError => Some ConfigParserError
  | InterpolationDepthError | InterpolationMissingOptionError
  | InterpolationSyntaxError => Some InterpolationError
  | TimeoutException | NoSuchElementException
  | StaleElementReferenceException => Some WebDriverException
  end.

(** [issubclass c d], by walking up from [c]; no class is more than four
    steps below [BaseException]. *)
Fixpoint issubclass_upto (fuel : nat) (c d : exn_class) : bool :=
  bool_decide (c = d) ||
  match fuel with
  | O => false
  | S k => match base_class c with
           | Some b => issubclass_upto k b d
           | None => false
           end
  end.

Definition issubclass : exn_class → exn_class → bool := issubclass_upto 4.

(** Values that travel through the configuration layer. *)
Inductive pyval :=
  | VNone
  | VBool (b : bool)
  | VInt (n : Z)
  | VStr (s : string).

#[global] Instance pyval_eq_dec : EqDecision pyval.
Proof. solve_decision. Defined.

(** An exception object: its class, the message it was built with, and the
    instance attributes that were set on it. *)
Record exn := Exn {
  exn_cls : exn_class;
  exn_msg : string;
  exn_attrs : list (string * pyval)
}.

#[global] Instance exn_eq_dec : EqDecision exn.
Proof. solve_decision. Defined.

(** [cls(msg)]: a freshly built exception has no extra attributes. *)
Definition make_exn (c : exn_class) (msg : string) : exn := Exn c msg [].

(** The result of running a call: it returns or it raises. *)
Inductive outcome (A : Type) :=
  | Return (a : A)
  | Raise (e : exn).
Arguments Return {A} a.
Arguments Raise {A} e.

(** [isinstance(e, classes)] for a tuple of classes, as an [except] clause
    tests it. *)
Definition isinstance (e : exn) (classes : list exn_class) : bool :=
  existsb (issubclass (exn_cls e)) classes.
#[global] Arguments isinstance : simpl never.

(** ** Strings *)

(** [str.lower] on ASCII text. *)
Definition lower_ascii (c : ascii) : ascii :=
  let n := N_of_ascii c in
  if ((65 <=? n) && (n <=? 90))%N then ascii_of_N (n + 32) else c.

Fixpoint lower (s : string) : string :=
  match s with
  | EmptyString => EmptyString
  | String c r => String (lower_ascii c) (lower r)
  end.

(** [s.startswith(p)]. *)
Fixpoint startswith (s p : string) : bool :=
  match p, s with
  | EmptyString, _ => true
  | String a p', String b s' => bool_decide (a = b) && startswith s' p'
  | String _ _, EmptyString => false
  end.

(** [sub in s]. *)
Definition contains (s sub : string) : Prop :=
  ∃ pre post, s = pre +:+ sub +:+ post.

(** [c.isspace()] for an ASCII character: tab to carriage return, the four
    separators 28 to 31, and the blank. *)
Definition isspace (c : ascii) : bool :=
  let n := N_of_ascii c in
  ((9 <=? n) && (n <=? 13) || (28 <=? n) && (n <=? 32))%N.

(** [sub in s], as a test. *)
Fixpoint is_substring (sub s : string) : bool :=
  startswith s sub ||
  match s with
  | EmptyString => false
  | String _ r => is_substring sub r
  end.

(** [(s[:p], s[p:])] for [p = s.find(c)], and [(s, "")] when [c] is not in
    [s], that is when [find] answers [-1]. *)
Fixpoint split_at (c : ascii) (s : string) : string * string :=
  match s with
  | EmptyString => (EmptyString, EmptyString)
  | String a r =>
      if bool_decide (a = c) then (EmptyString, s)
      else let '(before, from) := split_at c r in (String a before, from)
  end.

(** [repr(s)] for a [str] of ASCII text: single quotes, unless the text has
    a single quote and no double quote; the quote and the backslash are
    escaped, and so are the control characters. *)
Definition double_quote : ascii := "034"%char.

Definition hex_digit (n : N) : ascii :=
  if (n <? 10)%N then ascii_of_N (48 + n) else ascii_of_N (87 + n).

Definition repr_char (quote c : ascii) : string :=
  let n := N_of_ascii c in
  if bool_decide (c = quote) || bool_decide (c = "\"%char)
  then String "\" (String c EmptyString)
  else if (n =? 9)%N then "\t"
  else if (n =? 10)%N then "\n"
  else if (n =? 13)%N then "\r"
  else if ((n <? 32) || (n =? 127))%N
  then String "\" (String "x" (String (hex_digit (n / 16))
                                 (String (hex_digit (n mod 16)) EmptyString)))
  else String c EmptyString.

Fixpoint repr_chars (quote : ascii) (s : string) : string :=
  match s with
  | EmptyString => String quote EmptyString
  | String c r => repr_char quote c +:+ repr_chars quote r
  end.

Definition repr (s : string) : string :=
  let quote :=
    if is_substring "'" s && negb (is_substring (String double_quote "") s)
    then double_quote else "'"%char in
  String quote (repr_chars quote s).

(** [s.strip()] on ASCII text. *)
Fixpoint lstrip (l : list ascii) : list ascii :=
  match l with
  | c :: r => if isspace c then lstrip r else l
  | [] => []
  end.

Definition strip (l : list ascii) : list ascii :=
  rev (lstrip (rev (lstrip l))).

(** The digits of a decimal literal: at least one digit, single underscores
    allowed between digits only. [need_digit] holds at the start and right
    after an underscore. *)
Fixpoint int_digits (acc : Z) (need_digit : bool) (l : list ascii)
  : option Z :=
  match l with
  | [] => if need_digit then None else Some acc
  | c :: r =>
      match Ascii.is_nat c with
      | Some d => int_digits (10 * acc + Z.of_nat d) false r
      | None =>
          if bool_decide (c = "_"%char) && negb need_digit
          then int_digits acc true r
          else None
      end
  end.

(** [int(s)] for a [str] argument holding ASCII text: surrounding white space
    is dropped, one sign is allowed. [None] stands for [ValueError]. *)
Definition int_of_str (s : string) : option Z :=
  match strip (String.list_ascii_of_string s) with
  | "-"%char :: r => Z.opp <$> int_digits 0 true r
  | "+"%char :: r => int_digits 0 true r
  | l => int_digits 0 true l
  end.

(** [str(n)] for an [int]. *)
Definition str_of_int (n : Z) : string :=
  NilZero.string_of_int (Z.to_int n).

(** [str(v)], as used by f-strings and by [str(fallback)]. *)
Definition str (v : pyval) : string :=
  match v with
  | VNone => "None"
  | VBool true => "True"
  | VBool false => "False"
  | VInt n => str_of_int n
  | VStr s => s
  end.

(** ** Calls with effects *)

(** A callable over a state of type [S]: from the state before the call to
    an outcome and the state after it. *)
Definition M (S A : Type) : Type := S → outcome A * S.

#[global] Instance M_ret S : MRet (M S) := λ A a s, (Return a, s).

#[global] Instance M_bind S : MBind (M S) := λ A B k m s,
  match m s with
  | (Return a, s1) => k a s1
  | (Raise e, s1) => (Raise e, s1)
  end.

#[global] Instance M_fmap S : FMap (M S) := λ A B f m s,
  match m s with
  | (Return a, s1) => (Return (f a), s1)
  | (Raise e, s1) => (Raise e, s1)
  end.

Definition raise {S A} (e : exn) : M S A := λ s, (Raise e, s).

(** [try: body except classes as e: handler(e)]. *)
Definition try_except {S A} (body : M S A) (classes : list exn_class)
    (handler : exn → M S A) : M S A :=
  λ s, match body s with
       | (Return a, s1) => (Return a, s1)
       | (Raise e, s1) =>
           if isinstance e classes then handler e s1 else (Raise e, s1)
       end.

(** The levels of the [logging] module that the sources log at. *)
Inductive level := INFO | WARNING | ERROR.

#[global] Instance level_eq_dec : EqDecision level.
Proof. solve_decision. Defined.

(** [str(e)] inside an f-string: the message text. *)
Definition str_exn (e : exn) : string := exn_msg e.

End Py.

Import Py.

(* ===================================================================== *)
(** * src/constants/framework_constants.py *)
(* ===================================================================== *)

Module FrameworkConstants.

Definition EXPLICIT_WAIT_TIMEOUT : Z := 10.
Definition PAGE_LOAD_TIMEOUT : Z := 30.
Definition IMPLICIT_WAIT_TIMEOUT : Z := 5.

Definition CONFIG_FILE_PATH : string := "config/config.ini".

Definition CHROME_BROWSER : string := "chrome".
Definition FIREFOX_BROWSER : string := "firefox".
Definition EDGE_BROWSER : string := "edge".
Definition SAFARI_BROWSER : string := "safari".

End FrameworkConstants.

(* ===================================================================== *)
(** * src/pages/base_page.py *)
(* ===================================================================== *)

Module BasePage.

(** What a call leaves behind besides its result: the records handed to the
    logger, the pauses taken with [time.sleep], and, as instrumentation, one
    [Call] each time a decorator invokes the function it wraps. *)
Inductive event :=
  | Call (name : string)
  | Log (lvl : level) (msg : string)
  | Sleep (seconds : Z).

#[global] Instance event_eq_dec : EqDecision event.
Proof. solve_decision. Defined.

(** The state a page method runs in: the browser behind the driver, of some
    type [D], and the events so far, oldest first. *)
Record world (D : Type) := World {
  browser : D;
  trace : list event
}.
Arguments World {D} browser trace.
Arguments browser {D} w.
Arguments trace {D} w.

Definition emit {D} (ev : event) (w : world D) : world D :=
  World (browser w) (trace w ++ [ev]).

(** An operation that only touches the browser, seen as a callable. *)
Definition lift {D A} (op : D → outcome A * D) : M (world D) A :=
  fun w => let '(r, d) := op (browser w) in (r, World d (trace w)).

Section Decorators.
Context {D A : Type}.

(** The [for attempt in range(max_retries + 1)] loop of the wrapper built by
    [retry_on_exception]; [remaining] is the number of values [range] still
    has to yield and [attempt] the next of them. Falling out of the loop
    returns [None]. *)
Fixpoint retry_loop (max_retries : Z) (exceptions : list exn_class)
    (name : string) (func : M (world D) A) (remaining : nat) (attempt : Z)
    (w : world D) : outcome (option A) * world D :=
  match remaining with
  | O => (Return None, w)
  | S k =>
      match func (emit (Call name) w) with
      | (Return a, w1) => (Return (Some a), w1)
      | (Raise e, w1) =>
          if isinstance e exceptions then
            if attempt =? max_retries then
              (Raise e,
               emit (Log ERROR ("Function " +:+ name +:+ " failed after "
                                 +:+ str_of_int max_retries +:+ " retries: "
                                 +:+ str_exn e)) w1)
            else
              retry_loop max_retries exceptions name func k (attempt + 1)
                (emit (Sleep 1)
                   (emit (Log WARNING ("Attempt " +:+ str_of_int (attempt + 1)
                                        +:+ " failed for " +:+ name +:+ ": "
                                        +:+ str_exn e +:+ ". Retrying...")) w1))
          else (Raise e, w1)
      end
  end.

(** [retry_on_exception(max_retries, exceptions)(func)]; [name] is
    [func.__name__]. [range(max_retries + 1)] yields [max_retries + 1] values
    from 0 on, and none when [max_retries] is negative. *)
Definition retry_on_exception (max_retries : Z) (exceptions : list exn_class)
    (name : string) (func : M (world D) A) : M (world D) (option A) :=
  retry_loop max_retries exceptions name func (Z.to_nat (max_retries + 1)) 0.

(** [log_action(func)]. The elapsed wall-clock time that the two closing
    records also print is left out of their text. *)
Definition log_action (name : string) (func : M (world D) A) : M (world D) A :=
  fun w =>
    match func (emit (Call name) (emit (Log INFO ("Executing: " +:+ name)) w)) with
    | (Return a, w1) => (Return a, emit (Log INFO ("Completed: " +:+ name)) w1)
    | (Raise e, w1) =>
        if isinstance e [Exception] then
          (Raise e, emit (Log ERROR ("Failed: " +:+ name +:+ " - Error: "
                                      +:+ str_exn e)) w1)
        else (Raise e, w1)
    end.

(** [handle_exceptions(default_return)(func)]. *)
Definition handle_exceptions (default_return : A) (name : string)
    (func : M (world D) A) : M (world D) A :=
  fun w =>
    match func (emit (Call name) w) with
    | (Return a, w1) => (Return a, w1)
    | (Raise e, w1) =>
        if isinstance e [Exception] then
          (Return default_return,
           emit (Log ERROR ("Exception in " +:+ name +:+ ": " +:+ str_exn e)) w1)
        else (Raise e, w1)
    end.

End Decorators.

(** The default of [retry_on_exception]'s second parameter. *)
Definition default_exceptions : list exn_class :=
  [StaleElementReferenceException].

(** How often the function called [name] was invoked, and how many pauses
    were taken, in a run of events. *)
Definition invocations (name : string) (evs : list event) : nat :=
  length (filter (λ ev, ev = Call name) evs).

Definition is_sleep (ev : event) : bool :=
  match ev with Sleep _ => true | _ => false end.

Definition pauses (evs : list event) : nat :=
  length (filter (λ ev, is_sleep ev = true) evs).


(** Two operations to try the decorators on: one whose element reference is
    always stale, one that always fails outside the retried classes. *)
Definition stale : exn :=
  make_exn StaleElementReferenceException "stale element reference".

Definition always_stale : unit → outcome unit * unit :=
  λ d, (Raise stale, d).

Definition bad_argument : exn := make_exn ValueError "bad argument".

Definition always_bad_argument : unit → outcome unit * unit :=
  λ d, (Raise bad_argument, d).

Definition log {D} (lvl : level) (msg : string) : M (world D) unit :=
  λ w, (Return tt, emit (Log lvl msg) w).

(** ** The driver *)

(** A locator is a pair of a strategy and a value, as in [(By.ID, "nav")]. *)
Definition locator : Type := string * string.

(** [str(locator)], for parts without quotes or escapes. *)
Definition str_locator (l : locator) : string :=
  "('" +:+ l.1 +:+ "', '" +:+ l.2 +:+ "')".

(** Elements are opaque handles. *)
Definition element : Type := nat.

(** The part of the driver API that the four accessors touch. Each
    interaction may change the browser and may fail with any exception:
    selenium fails with instances of [Exception], and an interrupt from the
    keyboard or an exit request reaches the caller from inside a wait as a
    [BaseException] that is no [Exception].
    - [until_visible t l]: [WebDriverWait(driver, t).until(
        EC.visibility_of_element_located(l))];
    - [until_present t l]: the same with [EC.presence_of_element_located];
    - [find_element l]: [driver.find_element] on the two parts of [l];
    - [text el]: [el.text];
    - [attribute el a]: [el.get_attribute(a)], [None] when there is no such
      attribute. *)
Class Driver (D : Type) := {
  until_visible : Z → locator → D → outcome element * D;
  until_present : Z → locator → D → outcome element * D;
  find_element : locator → D → outcome element * D;
  text : element → D → outcome string * D;
  attribute : element → string → D → outcome (option string) * D
}.

Section Accessors.
Context {D : Type} `{Driver D}.

(** [self.wait] is built with [FrameworkConstants.EXPLICIT_WAIT_TIMEOUT]. *)
Definition self_wait_timeout : Z := FrameworkConstants.EXPLICIT_WAIT_TIMEOUT.

(** The body of [BasePage.get_text], below its decorators. *)
Definition get_text_body (loc : locator) : M (world D) string :=
  try_except
    (el ← lift (until_visible self_wait_timeout loc);
     t ← lift (text el);
     _ ← log INFO ("Retrieved text from element: " +:+ str_locator loc);
     mret t)
    [TimeoutException]
    (λ _,
     _ ← log ERROR ("Element not visible within timeout: " +:+ str_locator loc);
     raise (make_exn TimeoutException
              ("Element not visible: " +:+ str_locator loc))).

(** [@log_action @handle_exceptions(default_return="") def get_text]. *)
Definition get_text (loc : locator) : M (world D) string :=
  log_action "get_text" (handle_exceptions "" "get_text" (get_text_body loc)).

Definition get_attribute_body (loc : locator) (name : string)
  : M (world D) (option string) :=
  try_except
    (el ← lift (until_present self_wait_timeout loc);
     lift (attribute el name))
    [TimeoutException]
    (λ _, raise (make_exn TimeoutException
                   ("Element not found: " +:+ str_locator loc))).

(** [@handle_exceptions(default_return="") def get_attribute]; a missing
    attribute is returned as [None]. *)
Definition get_attribute (loc : locator) (name : string)
  : M (world D) (option string) :=
  handle_exceptions (Some "") "get_attribute" (get_attribute_body loc name).

Definition is_element_displayed_body (loc : locator) (timeout : Z)
  : M (world D) bool :=
  try_except
    (_ ← lift (until_visible timeout loc); mret true)
    [TimeoutException]
    (λ _, mret false).

(** [@handle_exceptions(default_return=False) def is_element_displayed]. *)
Definition is_element_displayed (loc : locator) (timeout : Z) : M (world D) bool :=
  handle_exceptions false "is_element_displayed"
    (is_element_displayed_body loc timeout).

Definition is_element_present_body (loc : locator) : M (world D) bool :=
  try_except
    (_ ← lift (find_element loc); mret true)
    [NoSuchElementException]
    (λ _, mret false).

(** [@handle_exceptions(default_return=False) def is_element_present]. *)
Definition is_element_present (loc : locator) : M (world D) bool :=
  handle_exceptions false "is_element_present" (is_element_present_body loc).

End Accessors.

(** What [handle_exceptions(default_return)] makes of the way the function
    it wraps ended: [except Exception] turns an instance of [Exception] into
    the default and lets every other exception through. *)
Definition guarded {A} (default_return : A) (r : outcome A) : outcome A :=
  match r with
  | Return t => Return t
  | Raise e =>
      if isinstance e [Exception] then Return default_return else Raise e
  end.

(** A driver to run the accessors against: a page that is a list of the
    elements it shows, each with locator, text and attributes; an element's
    handle is its position in the list. Waiting for an element that never
    shows ends in [TimeoutException], looking one up in
    [NoSuchElementException], reading through a handle that points nowhere in
    [StaleElementReferenceException]. *)
Record node := Node {
  node_locator : locator;
  node_text : string;
  node_attributes : list (string * string)
}.

Definition page : Type := list node.

Fixpoint position (loc : locator) (p : page) (i : nat) : option nat :=
  match p with
  | [] => None
  | n :: r => if bool_decide (node_locator n = loc) then Some i
              else position loc r (S i)
  end.

Definition page_wait (t : Z) (loc : locator) (p : page)
  : outcome element * page :=
  match position loc p 0 with
  | Some i => (Return i, p)
  | None => (Raise (make_exn TimeoutException ""), p)
  end.

Definition page_find (loc : locator) (p : page) : outcome element * page :=
  match position loc p 0 with
  | Some i => (Return i, p)
  | None => (Raise (make_exn NoSuchElementException
                      ("no such element: " +:+ str_locator loc)), p)
  end.

Definition page_text (el : element) (p : page) : outcome string * page :=
  match p !! el with
  | Some n => (Return (node_text n), p)
  | None => (Raise (make_exn StaleElementReferenceException
                      "stale element reference"), p)
  end.

Fixpoint assoc (k : string) (l : list (string * string)) : option string :=
  match l with
  | [] => None
  | (k', v) :: r => if bool_decide (k' = k) then Some v else assoc k r
  end.

Definition page_attribute (el : element) (a : string) (p : page)
  : outcome (option string) * page :=
  match p !! el with
  | Some n => (Return (assoc a (node_attributes n)), p)
  | None => (Raise (make_exn StaleElementReferenceException
                      "stale element reference"), p)
  end.

(** A page that shows the logo only. *)
Definition sample_world : world page :=
  World [Node ("id", "nav-logo") "amazon" []] [].

#[global] Instance page_driver : Driver page := {
  until_visible := page_wait;
  until_present := page_wait;
  find_element := page_find;
  text := page_text;
  attribute := page_attribute
}.

(** ** The methods that act on the page *)

(** The interactions they need on top of [Driver]:
    - [until_clickable t l]: [WebDriverWait(driver, t).until(
        EC.element_to_be_clickable(l))];
    - [scroll_into_view el]: [driver.execute_script] with the script that
      scrolls [el] to the centre;
    - [click el], [clear el], [send_keys el text]: the element methods;
    - [until_not_present t l]: [WebDriverWait(driver, t).until_not(
        EC.presence_of_element_located(l))]. *)
Class Actions (D : Type) := {
  until_clickable : Z → locator → D → outcome element * D;
  scroll_into_view : element → D → outcome unit * D;
  click : element → D → outcome unit * D;
  clear : element → D → outcome unit * D;
  send_keys : element → string → D → outcome unit * D;
  until_not_present : Z → locator → D → outcome unit * D
}.

Section Page.
Context {D : Type} `{Driver D} `{Actions D}.

Definition click_element_body (loc : locator) : M (world D) unit :=
  try_except
    (el ← lift (until_clickable self_wait_timeout loc);
     _ ← lift (scroll_into_view el);
     _ ← lift (click el);
     log INFO ("Successfully clicked element: " +:+ str_locator loc))
    [TimeoutException]
    (λ _,
     _ ← log ERROR ("Element not clickable within timeout: "
                    +:+ str_locator loc);
     raise (make_exn TimeoutException
              ("Element not clickable: " +:+ str_locator loc))).

(** [@log_action @retry_on_exception(max_retries=3) def click_element]. *)
Definition click_element (loc : locator) : M (world D) (option unit) :=
  log_action "click_element"
    (retry_on_exception 3 default_exceptions "click_element"
       (click_element_body loc)).

Definition enter_text_body (loc : locator) (txt : string)
    (clear_first : bool) : M (world D) unit :=
  try_except
    (el ← lift (until_visible self_wait_timeout loc);
     _ ← (if clear_first then lift (clear el) else mret tt);
     _ ← lift (send_keys el txt);
     log INFO ("Successfully entered text in element: " +:+ str_locator loc))
    [TimeoutException]
    (λ _,
     _ ← log ERROR ("Element not visible within timeout: "
                    +:+ str_locator loc);
     raise (make_exn TimeoutException
              ("Element not visible: " +:+ str_locator loc))).

(** [@log_action @retry_on_exception(max_retries=2) def enter_text]. *)
Definition enter_text (loc : locator) (txt : string) (clear_first : bool)
  : M (world D) (option unit) :=
  log_action "enter_text"
    (retry_on_exception 2 default_exceptions "enter_text"
       (enter_text_body loc txt clear_first)).

(** [@log_action def wait_for_element_to_disappear]. *)
Definition wait_for_element_to_disappear (loc : locator) (timeout : Z)
  : M (world D) bool :=
  log_action "wait_for_element_to_disappear"
    (try_except
       (_ ← lift (until_not_present timeout loc); mret true)
       [TimeoutException]
       (λ _, mret false)).

End Page.

(** The sample page as a target of actions: scrolling to and clicking an
    element need its handle to point at a node; clearing empties the node's
    text and typing appends to it; waiting for an element to go away times
    out while the page shows it. *)
Definition page_touch (el : element) (p : page) : outcome unit * page :=
  match p !! el with
  | Some _ => (Return tt, p)
  | None => (Raise (make_exn StaleElementReferenceException
                      "stale element reference"), p)
  end.

Definition page_clear (el : element) (p : page) : outcome unit * page :=
  match p !! el with
  | Some n =>
      (Return tt, <[el := Node (node_locator n) "" (node_attributes n)]> p)
  | None => (Raise (make_exn StaleElementReferenceException
                      "stale element reference"), p)
  end.

Definition page_send_keys (el : element) (txt : string) (p : page)
  : outcome unit * page :=
  match p !! el with
  | Some n =>
      (Return tt,
       <[el := Node (node_locator n) (node_text n +:+ txt)
                    (node_attributes n)]> p)
  | None => (Raise (make_exn StaleElementReferenceException
                      "stale element reference"), p)
  end.

Definition page_until_gone (t : Z) (loc : locator) (p : page)
  : outcome unit * page :=
  match position loc p 0 with
  | Some _ => (Raise (make_exn TimeoutException ""), p)
  | None => (Return tt, p)
  end.

#[global] Instance page_actions : Actions page := {
  until_clickable := page_wait;
  scroll_into_view := page_touch;
  click := page_touch;
  clear := page_clear;
  send_keys := page_send_keys;
  until_not_present := page_until_gone
}.

(** ** Counting what the retrying wrapper does *)

Definition is_log (ev : event) : bool :=
  match ev with Log _ _ => true | _ => false end.


(** The browser after [k] invocations of [op] in a row that each failed with
    one of the classes [exceptions]; [None] when one of them ended
    otherwise. *)
Fixpoint after_failures {D A} (exceptions : list exn_class)
    (op : D → outcome A * D) (k : nat) (d : D) : option D :=
  match k with
  | O => Some d
  | S k' =>
      match op d with
      | (Raise e, d') =>
          if isinstance e exceptions then after_failures exceptions op k' d'
          else None
      | (Return _, _) => None
      end
  end.

(** An operation that finds its element stale twice and then returns; the
    browser is the number of invocations so far. *)
Definition stale_twice : nat → outcome string * nat :=
  λ d, if (d <? 2)%nat then (Raise stale, S d) else (Return "done", S d).

(** An operation that finds its element stale once and then runs into a
    timeout. *)
Definition timed_out : exn := make_exn TimeoutException "timed out".

Definition stale_then_timeout : nat → outcome string * nat :=
  λ d, if (d <? 1)%nat then (Raise stale, S d) else (Raise timed_out, S d).

(** The exception that Ctrl-C raises in the running call. *)
Definition interrupted : exn := make_exn KeyboardInterrupt "".

(** A browser whose every interaction is interrupted from the keyboard. Its
    state is the number of interactions begun. *)
Record keyboard := Keyboard { begun : nat }.

Definition interrupt {A} (k : keyboard) : outcome A * keyboard :=
  (Raise interrupted, Keyboard (S (begun k))).

#[global] Instance interrupted_driver : Driver keyboard := {
  until_visible := λ _ _, interrupt;
  until_present := λ _ _, interrupt;
  find_element := λ _, interrupt;
  text := λ _, interrupt;
  attribute := λ _ _, interrupt
}.

Definition interrupted_world : world keyboard := World (Keyboard 0) [].

End BasePage.

(* ===================================================================== *)
(** * src/utils/config_manager.py *)
(* ===================================================================== *)

Module ConfigManager.

(** ** The configparser side *)

(** A [configparser.ConfigParser] holds the options of the [DEFAULT] section
    and those of every other section. The text kept for an option is the raw
    text read from the file; option names are already passed through
    [optionxform]. *)
Record ConfigParser := Parser {
  defaults : gmap string string;
  sections : gmap string (gmap string string)
}.

Definition empty_parser : ConfigParser := Parser ∅ ∅.

Definition DEFAULTSECT : string := "DEFAULT".

(** [optionxform]: option names are matched in lower case. *)
Definition optionxform (option : string) : string := lower option.

(** [_unify_values]: the options visible in a section are its own, then the
    defaults; a section that does not exist has none, unless it is [DEFAULT]
    itself. *)
Definition unify_values (cfg : ConfigParser) (section : string)
  : option (gmap string string) :=
  match sections cfg !! section with
  | Some d => Some (d ∪ defaults cfg)
  | None =>
      if bool_decide (section = DEFAULTSECT) then Some (defaults cfg) else None
  end.

(** The text stored under a section and key, if any. *)
Definition stored (cfg : ConfigParser) (section key : string)
  : option string :=
  d ← unify_values cfg section; d !! optionxform key.

(** ** [BasicInterpolation], the interpolation of [ConfigParser()] *)

Definition MAX_INTERPOLATION_DEPTH : nat := 10.

(** [_KEYCRE.match(rest)] for a [rest] that starts with [%(]; the argument
    is what follows these two characters. The expression is
    [%\(([^)]+)\)s]: the name runs up to the first closing parenthesis, is
    not empty, and is followed by [s]. The answer is the name and what is
    left of [rest] after the match. *)
Definition key_reference (after : string) : option (string * string) :=
  match split_at ")" after with
  | (String c name, String _ (String s remaining)) =>
      if bool_decide (s = "s"%char) then Some (String c name, remaining)
      else None
  | _ => None
  end.

Section Interpolation.
(** The arguments of [_interpolate_some] that stay the same all the way:
    the section and the option asked for, the raw value of that option, and
    the options in view, [map]. *)
Variables (section option rawval : string) (map : gmap string string).

(** The [while rest] loop of [_interpolate_some]. [fuel] bounds the number
    of rounds, each of which shortens [rest]; [into] is the call of
    [_interpolate_some] one level further down, given the value to expand
    and [accum]. *)
Fixpoint interpolate_loop (into : string → string → outcome string)
    (fuel : nat) (rest accum : string) : outcome string :=
  match fuel with
  | O => Return accum
  | S n =>
      match split_at "%" rest with
      | (text, EmptyString) => Return (accum +:+ text)
      | (text, String _ after as rest) =>
          let accum := accum +:+ text in
          let stray :=
            make_exn InterpolationSyntaxError
              ("'%' must be followed by '%' or '(', found: " +:+ repr rest) in
          match after with
          | EmptyString => Raise stray
          | String c after =>
              if bool_decide (c = "%"%char) then
                interpolate_loop into n after (accum +:+ "%")
              else if bool_decide (c = "("%char) then
                match key_reference after with
                | None =>
                    Raise (make_exn InterpolationSyntaxError
                             ("bad interpolation variable reference "
                              +:+ repr rest))
                | Some (name, rest) =>
                    let var := optionxform name in
                    match map !! var with
                    | None =>
                        Raise (make_exn InterpolationMissingOptionError
                                 ("Bad value substitution: option "
                                  +:+ repr option +:+ " in section "
                                  +:+ repr section
                                  +:+ " contains an interpolation key "
                                  +:+ repr var
                                  +:+ " which is not a valid option name."
                                  +:+ " Raw value: " +:+ repr rawval))
                    | Some v =>
                        if is_substring "%" v then
                          match into v accum with
                          | Return accum => interpolate_loop into n rest accum
                          | Raise e => Raise e
                          end
                        else interpolate_loop into n rest (accum +:+ v)
                    end
                end
              else Raise stray
          end
      end
  end.

(** [_interpolate_some] at depth [MAX_INTERPOLATION_DEPTH + 1 - levels]: at
    a depth above the maximum, that is with no level left, it raises. The
    answer is [accum] with the expansion of [rest] appended. *)
Fixpoint _interpolate_some (levels : nat) (rest accum : string)
  : outcome string :=
  match levels with
  | O =>
      Raise (make_exn InterpolationDepthError
               ("Recursion limit exceeded in value substitution: option "
                +:+ repr option +:+ " in section " +:+ repr section
                +:+ " contains an interpolation key which cannot be"
                +:+ " substituted in "
                +:+ str_of_int (Z.of_nat MAX_INTERPOLATION_DEPTH)
                +:+ " steps. Raw value: " +:+ repr rawval))
  | S below =>
      interpolate_loop (_interpolate_some below) (String.length rest) rest accum
  end.

End Interpolation.

(** [BasicInterpolation.before_get]: the expansion starts at depth 1 with
    nothing accumulated. *)
Definition before_get (section option value : string)
    (defaults : gmap string string) : outcome string :=
  _interpolate_some section option value defaults MAX_INTERPOLATION_DEPTH
    value "".

(** [ConfigParser.get(section, option)] without a fallback. *)
Definition parser_get (cfg : ConfigParser) (section option : string)
  : outcome string :=
  match unify_values cfg section with
  | None => Raise (make_exn NoSectionError ("No section: " +:+ repr section))
  | Some d =>
      let option := optionxform option in
      match d !! option with
      | Some value => before_get section option value d
      | None =>
          Raise (make_exn NoOptionError
                   ("No option " +:+ repr option +:+ " in section: "
                    +:+ repr section))
      end
  end.

(** [_get_conv]: [conv(get(section, option))]; a conversion that rejects the
    text raises [ValueError] with the given message. *)
Definition get_conv {A} (conv : string → option A) (why : string → string)
    (cfg : ConfigParser) (section option : string) : outcome A :=
  match parser_get cfg section option with
  | Return v =>
      match conv v with
      | Some a => Return a
      | None => Raise (make_exn ValueError (why v))
      end
  | Raise e => Raise e
  end.

(** [_convert_to_boolean] with the [BOOLEAN_STATES] table. *)
Definition convert_to_boolean (value : string) : option bool :=
  let v := lower value in
  if bool_decide (v ∈ ["1"; "yes"; "true"; "on"]) then Some true
  else if bool_decide (v ∈ ["0"; "no"; "false"; "off"]) then Some false
  else None.

Definition getboolean : ConfigParser → string → string → outcome bool :=
  get_conv convert_to_boolean (λ v, "Not a boolean: " +:+ v).

Definition getint : ConfigParser → string → string → outcome Z :=
  get_conv int_of_str
    (λ v, "invalid literal for int() with base 10: " +:+ repr v).

(** ** The state of the module *)

(** Objects are named by references. *)
Definition ref : Type := nat.

(** The methods decorated with [cache_config], in the order of [dir(self)]. *)
Inductive accessor :=
  | get_base_url | get_browser | get_explicit_wait_timeout
  | get_implicit_wait_timeout | get_invalid_email | get_login_url
  | get_max_price | get_min_price | get_page_load_timeout | get_retry_count
  | get_search_category | get_search_product | get_test_email
  | get_test_password | get_thread_count | is_headless
  | should_generate_reports | should_take_screenshot_on_failure
  | should_take_screenshot_on_pass.

#[global] Instance accessor_eq_dec : EqDecision accessor.
Proof. solve_decision. Defined.

Definition cached_methods : list accessor :=
  [ get_base_url; get_browser; get_explicit_wait_timeout;
    get_implicit_wait_timeout; get_invalid_email; get_login_url;
    get_max_price; get_min_price; get_page_load_timeout; get_retry_count;
    get_search_category; get_search_product; get_test_email;
    get_test_password; get_thread_count; is_headless;
    should_generate_reports; should_take_screenshot_on_failure;
    should_take_screenshot_on_pass ].

Definition accessor_index (a : accessor) : nat :=
  match a with
  | get_base_url => 0 | get_browser => 1 | get_explicit_wait_timeout => 2
  | get_implicit_wait_timeout => 3 | get_invalid_email => 4
  | get_login_url => 5 | get_max_price => 6 | get_min_price => 7
  | get_page_load_timeout => 8 | get_retry_count => 9
  | get_search_category => 10 | get_search_product => 11
  | get_test_email => 12 | get_test_password => 13 | get_thread_count => 14
  | is_headless => 15 | should_generate_reports => 16
  | should_take_screenshot_on_failure => 17
  | should_take_screenshot_on_pass => 18
  end%nat.

#[global] Program Instance accessor_countable : Countable accessor :=
  inj_countable' accessor_index
    (λ n, default get_base_url (cached_methods !! n)) _.
Next Obligation. by intros []. Qed.

(** What is found at [FrameworkConstants.CONFIG_FILE_PATH]: nothing, a file
    the parser gives up on (with what it had read until then and its
    complaint), or a file it reads to the end. *)
Inductive file_state :=
  | Missing
  | Malformed (partial : ConfigParser) (complaint : string)
  | Wellformed (content : ConfigParser).

(** Log records, and as instrumentation one [Load] for each run of
    [_load_config] and one [Compute a] each time the cache of accessor [a]
    calls the function it wraps. *)
Inductive event :=
  | Load
  | Compute (a : accessor)
  | Log (lvl : level) (msg : string).

#[global] Instance event_eq_dec : EqDecision event.
Proof. solve_decision. Defined.

(** - [instance]: the class attribute [ConfigManager._instance];
    - [heap]: the [_config] attribute of every [ConfigManager] object made
      so far, [next_ref] naming the next object;
    - [caches]: for each decorated method the entries of its [lru_cache],
      most recently used first, keyed by the argument tuple [(self,)];
    - [file]: the configuration file;
    - [trace]: the events so far, oldest first. *)
Record state := State {
  instance : option ref;
  heap : gmap ref ConfigParser;
  next_ref : ref;
  caches : gmap accessor (list (ref * pyval));
  file : file_state;
  trace : list event
}.

Definition emit (ev : event) (st : state) : state :=
  State (instance st) (heap st) (next_ref st) (caches st) (file st)
        (trace st ++ [ev]).

Definition log (lvl : level) (msg : string) : M state unit :=
  λ st, (Return tt, emit (Log lvl msg) st).

Definition set_config (self : ref) (cfg : ConfigParser) (st : state) : state :=
  State (instance st) (<[self := cfg]> (heap st)) (next_ref st) (caches st)
        (file st) (trace st).

Definition set_caches (c : gmap accessor (list (ref * pyval))) (st : state)
  : state :=
  State (instance st) (heap st) (next_ref st) c (file st) (trace st).

(** [self._config]. *)
Definition config_of (st : state) (self : ref) : ConfigParser :=
  default empty_parser (heap st !! self).

(** Reading the parser of [self] with [f]. *)
Definition on_config {A} (self : ref) (f : ConfigParser → outcome A)
  : M state A :=
  λ st, (f (config_of st self), st).

(** [ConfigParser.read] into a parser that already holds values: what is
    read is added, and replaces what was there under the same name. *)
Definition read_into (old new : ConfigParser) : ConfigParser :=
  Parser (defaults new ∪ defaults old)
         (union_with (λ n o, Some (n ∪ o)) (sections new) (sections old)).

(** ** The methods *)

Definition _load_config (self : ref) : M state unit :=
  λ st0,
    let st := emit Load st0 in
    match file st with
    | Missing =>
        (Raise (make_exn FileNotFoundError
                  ("Configuration file not found: " +:+ FrameworkConstants.CONFIG_FILE_PATH)), st)
    | Malformed partial complaint =>
        (Raise (make_exn Exception
                  ("Failed to load configuration: " +:+ complaint)),
         set_config self (read_into (config_of st self) partial) st)
    | Wellformed content =>
        log INFO ("Configuration loaded from: " +:+ FrameworkConstants.CONFIG_FILE_PATH)
          (set_config self (read_into (config_of st self) content) st)
    end.

(** [_initialize]: a new, empty parser, then the load. *)
Definition _initialize (self : ref) : M state unit :=
  λ st, _load_config self (set_config self empty_parser st).

(** [ConfigManager()], that is [__new__]; the class has no [__init__]. The
    new object is bound to [_instance] before it is initialised. *)
Definition new : M state ref :=
  λ st,
    match instance st with
    | None =>
        let self := next_ref st in
        let st1 := State (Some self) (heap st) (S self) (caches st) (file st)
                         (trace st) in
        match _initialize self st1 with
        | (Return _, st2) => (Return self, st2)
        | (Raise e, st2) => (Raise e, st2)
        end
    | Some self => (Return self, st)
    end.

Definition get_property (self : ref) (section key : string)
    (fallback : pyval) : M state string :=
  try_except
    (on_config self (λ cfg, parser_get cfg section key))
    [NoSectionError; NoOptionError]
    (λ _,
     match fallback with
     | VNone =>
         raise (make_exn KeyError
                  ("Property '" +:+ section +:+ "." +:+ key
                   +:+ "' not found in configuration"))
     | _ =>
         _ ← log WARNING ("Using fallback value for " +:+ section +:+ "."
                           +:+ key +:+ ": " +:+ str fallback);
         mret (str fallback)
     end).

Definition get_boolean (self : ref) (section key : string) (fallback : bool)
  : M state bool :=
  try_except
    (on_config self (λ cfg, getboolean cfg section key))
    [NoSectionError; NoOptionError]
    (λ _, mret fallback).

Definition get_int (self : ref) (section key : string) (fallback : Z)
  : M state Z :=
  try_except
    (on_config self (λ cfg, getint cfg section key))
    [NoSectionError; NoOptionError]
    (λ _, mret fallback).

Section Float.
(** Floating-point numbers and [float(s)] are left open: [float_of_str]
    answers [None] where [float] raises [ValueError]. *)
Variable float : Type.
Variable float_of_str : string → option float.

Definition getfloat : ConfigParser → string → string → outcome float :=
  get_conv float_of_str
    (λ v, "could not convert string to float: " +:+ repr v).

Definition get_float (self : ref) (section key : string) (fallback : float)
  : M state float :=
  try_except
    (on_config self (λ cfg, getfloat cfg section key))
    [NoSectionError; NoOptionError]
    (λ _, mret fallback).

End Float.

(** ** The decorators *)

(** [validate_config(validation_func)(func)]; [fmt] is how the f-string
    prints the result. *)
Definition validate_config {A} (validation_func : option (A → bool))
    (fmt : A → string) (func : M state A) : M state A :=
  result ← func;
  match validation_func with
  | Some valid =>
      if valid result then mret result
      else raise (make_exn ValueError
                    ("Invalid configuration value: " +:+ fmt result))
  | None => mret result
  end.

(** [lru_cache(maxsize=128)]. *)
Definition maxsize : nat := 128.

Fixpoint cache_find (key : ref) (entries : list (ref * pyval))
  : option pyval :=
  match entries with
  | [] => None
  | (k, v) :: r => if bool_decide (k = key) then Some v else cache_find key r
  end.

Definition cache_remove (key : ref) (entries : list (ref * pyval))
  : list (ref * pyval) :=
  filter (λ kv, kv.1 ≠ key) entries.

(** The entries of the cache of accessor [a]. *)
Definition cache_of (st : state) (a : accessor) : list (ref * pyval) :=
  default [] (caches st !! a).

(** [cache_config(func)] for the method [a]: a hit returns the stored result
    and makes the entry the most recent one; a miss calls [func], and when
    that returns, stores the result, dropping the oldest entry of a full
    cache. A call that raises stores nothing. *)
Definition cache_config (a : accessor) (func : ref → M state pyval)
    (self : ref) : M state pyval :=
  λ st,
    match cache_find self (cache_of st a) with
    | Some v =>
        (Return v,
         set_caches (<[a := (self, v) :: cache_remove self (cache_of st a)]>
                       (caches st)) st)
    | None =>
        match func self (emit (Compute a) st) with
        | (Return v, st1) =>
            (Return v,
             set_caches (<[a := take maxsize ((self, v) :: cache_of st1 a)]>
                           (caches st1)) st1)
        | (Raise e, st1) => (Raise e, st1)
        end
    end.

(** [method.cache_clear()]. *)
Definition cache_clear (a : accessor) (st : state) : state :=
  set_caches (delete a (caches st)) st.

(** ** The accessors *)

Definition valid_browser (x : string) : bool :=
  bool_decide (lower x ∈ ["chrome"; "firefox"; "edge"; "safari"]).

Definition valid_url (x : string) : bool := startswith x "http".

Definition valid_timeout (x : Z) : bool := bool_decide (x > 0).

(** The function under [cache_config] for each accessor: the method body,
    inside [validate_config] where the source has it. *)
Definition func (a : accessor) (self : ref) : M state pyval :=
  match a with
  | get_browser =>
      VStr <$> validate_config (Some valid_browser) id
                 (get_property self "BROWSER" "browser" (VStr "chrome"))
  | is_headless =>
      VBool <$> get_boolean self "BROWSER" "headless" false
  | get_base_url =>
      VStr <$> validate_config (Some valid_url) id
                 (get_property self "URLS" "base_url" VNone)
  | get_login_url =>
      VStr <$> get_property self "URLS" "login_url" VNone
  | get_test_email =>
      VStr <$> get_property self "CREDENTIALS" "test_email" VNone
  | get_test_password =>
      VStr <$> get_property self "CREDENTIALS" "test_password" VNone
  | get_invalid_email =>
      VStr <$> get_property self "CREDENTIALS" "invalid_email" VNone
  | get_explicit_wait_timeout =>
      VInt <$> validate_config (Some valid_timeout) str_of_int
                 (get_int self "TIMEOUTS" "explicit_wait_timeout" 10)
  | get_page_load_timeout =>
      VInt <$> get_int self "TIMEOUTS" "page_load_timeout" 30
  | get_implicit_wait_timeout =>
      VInt <$> get_int self "TIMEOUTS" "implicit_wait_timeout" 5
  | should_generate_reports =>
      VBool <$> get_boolean self "REPORTING" "generate_reports" true
  | should_take_screenshot_on_failure =>
      VBool <$> get_boolean self "REPORTING" "screenshot_on_failure" true
  | should_take_screenshot_on_pass =>
      VBool <$> get_boolean self "REPORTING" "screenshot_on_pass" false
  | get_thread_count =>
      VInt <$> get_int self "EXECUTION" "thread_count" 1
  | get_retry_count =>
      VInt <$> get_int self "EXECUTION" "retry_failed_tests" 0
  | get_search_product =>
      VStr <$> get_property self "AMAZON_TEST_DATA" "search_product"
                 (VStr "laptop")
  | get_search_category =>
      VStr <$> get_property self "AMAZON_TEST_DATA" "search_category"
                 (VStr "Electronics")
  | get_min_price =>
      VInt <$> get_int self "AMAZON_TEST_DATA" "min_price" 0
  | get_max_price =>
      VInt <$> get_int self "AMAZON_TEST_DATA" "max_price" 10000
  end.

(** Calling the decorated method [a] on [self]. *)
Definition call (a : accessor) (self : ref) : M state pyval :=
  cache_config a (func a) self.

(** The loop of [reload_config] over [dir(self)]: every attribute that has
    a [cache_clear] is cleared. *)
Definition clear_caches : M state unit :=
  λ st, (Return tt, foldl (λ s a, cache_clear a s) st cached_methods).

(** [reload_config]: the file is loaded again, then the caches are cleared. *)
Definition reload_config (self : ref) : M state unit :=
  _ ← _load_config self;
  _ ← clear_caches;
  log INFO "Configuration reloaded and cache cleared".

(** The module as the interpreter finds it: no instance, no object, empty
    caches, and [f] at the configuration path. *)
Definition initial (f : file_state) : state := State None ∅ 0%nat ∅ f [].

(** [n] calls of [ConfigManager()] in a row, with their outcomes in order. *)
Fixpoint new_times (n : nat) (st : state) : list (outcome ref) * state :=
  match n with
  | O => ([], st)
  | S k => let '(r, st1) := new st in
           let '(rs, st2) := new_times k st1 in
           (r :: rs, st2)
  end.

(** How often something happened in a trace. *)
Definition occurrences (ev : event) (tr : list event) : nat :=
  length (filter (λ e, e = ev) tr).

(** A later state differs from an earlier one by log records only. *)
Definition is_log (ev : event) : bool :=
  match ev with Log _ _ => true | _ => false end.

Definition logged (st st1 : state) : Prop :=
  ∃ logs,
    st1 = State (instance st) (heap st) (next_ref st) (caches st) (file st)
                (trace st ++ logs)
    ∧ Forall (λ ev, is_log ev = true) logs.

(** A configuration to try the methods on, and the module after the first
    [ConfigManager()] has read it. *)
Definition sample_config : ConfigParser :=
  Parser ∅
    {[ "BROWSER" := {[ "browser" := "opera"; "headless" := "maybe" ]};
       "TIMEOUTS" := {[ "explicit_wait_timeout" := "0";
                        "implicit_wait_timeout" := "soon";
                        "page_load_timeout" := "45" ]};
       "URLS" := {[ "base_url" := "ftp://shop.example";
                    "login_url" := "https://shop.example/signin" ]} ]}.

Definition sample_state : state :=
  State (Some 0%nat) {[ 0%nat := sample_config ]} 1%nat ∅
        (Wellformed sample_config) [].

(** A configuration with percent signs in its values: a reference to an
    option of the [DEFAULT] section, an escaped percent sign, and two bare
    ones. *)
Definition percent_config : ConfigParser :=
  Parser {[ "host" := "shop.example" ]}
    {[ "URLS" := {[ "base_url" := "https://%(host)s/" ]};
       "CREDENTIALS" := {[ "test_password" := "P@ss%word" ]};
       "TIMEOUTS" := {[ "page_load_timeout" := "50%" ]};
       "REPORTING" := {[ "coverage" := "80%%" ]} ]}.

Definition percent_state : state :=
  State (Some 0%nat) {[ 0%nat := percent_config ]} 1%nat ∅
        (Wellformed percent_config) [].

(** A stand-in for [float(s)] that accepts whole numbers only. *)
Definition whole_number : string → option Z := int_of_str.

(** [n] calls of the accessor [a] in a row, with their outcomes in order. *)
Fixpoint call_times (n : nat) (a : accessor) (self : ref) (st : state)
  : list (outcome pyval) * state :=
  match n with
  | O => ([], st)
  | S k => let '(r, st1) := call a self st in
           let '(rs, st2) := call_times k a self st1 in
           (r :: rs, st2)
  end.

(** The same module with another file at the configuration path. *)
Definition with_file (f : file_state) (st : state) : state :=
  State (instance st) (heap st) (next_ref st) (caches st) f (trace st).

(** A second version of the configuration file: the page load timeout is
    raised, and the [URLS] section is gone. *)
Definition edited_config : ConfigParser :=
  Parser ∅ {[ "TIMEOUTS" := {[ "page_load_timeout" := "60" ]} ]}.

End ConfigManager.

(* ===================================================================== *)
(** * src/utils/driver_manager.py *)
(* ===================================================================== *)

Module DriverManager.

Inductive browser_kind := Chrome | Firefox | Edge.

#[global] Instance browser_kind_eq_dec : EqDecision browser_kind.
Proof. solve_decision. Defined.

(** A running browser session, as the [_create_*_driver] functions set it
    up: the command-line arguments, whether [maximize_window] was called, and
    the two timeouts. *)
Record session := Session {
  kind : browser_kind;
  arguments : list string;
  maximized : bool;
  implicit_wait : Z;
  page_load_timeout : Z
}.

(** A driver object is named by a handle. *)
Definition handle : Type := nat.

(** - [_driver]: the class attribute [DriverManager._driver];
    - [next_handle]: the name the next driver object gets;
    - [live]: the sessions that are running;
    - [launches]: what the next attempts to start a browser run into, first
      attempt first: [Some e] makes the attempt raise [e]; an attempt beyond
      the list succeeds. *)
Record state := State {
  _driver : option handle;
  next_handle : handle;
  live : gmap handle session;
  launches : list (option exn)
}.

(** Starting a browser and setting it up: the driver binary is fetched,
    [webdriver.Chrome(service=..., options=...)] or one of its siblings
    starts the session, and the calls that follow on the new driver set the
    window and the timeouts. The whole is taken as one step that either
    fails before a session runs or ends with the session set up; a failure
    of one of the later calls, which would leave a session running that no
    handle names, is not modelled. *)
Definition launch (s : session) : M state handle :=
  λ st,
    match launches st with
    | Some e :: rest =>
        (Raise e, State (_driver st) (next_handle st) (live st) rest)
    | None :: rest =>
        (Return (next_handle st),
         State (_driver st) (S (next_handle st))
               (<[next_handle st := s]> (live st)) rest)
    | [] =>
        (Return (next_handle st),
         State (_driver st) (S (next_handle st))
               (<[next_handle st := s]> (live st)) [])
    end.

Definition headless_argument (headless : bool) : list string :=
  if headless then ["--headless"] else [].

Definition _create_chrome_driver (headless : bool) : M state handle :=
  launch (Session Chrome
            (["--start-maximized"; "--disable-notifications";
              "--disable-popup-blocking"; "--disable-extensions"]
             ++ headless_argument headless)
            false
            FrameworkConstants.IMPLICIT_WAIT_TIMEOUT
            FrameworkConstants.PAGE_LOAD_TIMEOUT).

Definition _create_firefox_driver (headless : bool) : M state handle :=
  launch (Session Firefox (headless_argument headless) true
            FrameworkConstants.IMPLICIT_WAIT_TIMEOUT
            FrameworkConstants.PAGE_LOAD_TIMEOUT).

Definition _create_edge_driver (headless : bool) : M state handle :=
  launch (Session Edge (["--start-maximized"] ++ headless_argument headless)
            false
            FrameworkConstants.IMPLICIT_WAIT_TIMEOUT
            FrameworkConstants.PAGE_LOAD_TIMEOUT).

Definition _create_driver (browser_name : string) (headless : bool)
  : M state handle :=
  let browser_name := lower browser_name in
  if bool_decide (browser_name = FrameworkConstants.CHROME_BROWSER) then
    _create_chrome_driver headless
  else if bool_decide (browser_name = FrameworkConstants.FIREFOX_BROWSER) then
    _create_firefox_driver headless
  else if bool_decide (browser_name = FrameworkConstants.EDGE_BROWSER) then
    _create_edge_driver headless
  else
    raise (make_exn ValueError ("Unsupported browser: " +:+ browser_name)).

Definition get_driver (browser_name : string) (headless : bool)
  : M state handle :=
  λ st,
    match _driver st with
    | None =>
        match _create_driver browser_name headless st with
        | (Return d, st1) =>
            (Return d,
             State (Some d) (next_handle st1) (live st1) (launches st1))
        | (Raise e, st1) => (Raise e, st1)
        end
    | Some d => (Return d, st)
    end.

(** [quit_driver]: [_driver.quit()] ends the session, then [_driver] is
    reset. The driver's own [quit] is taken to go through: a [quit] that
    raises, after which [_driver] would keep its handle, is not modelled. *)
Definition quit_driver : M state unit :=
  λ st,
    match _driver st with
    | Some d =>
        (Return tt,
         State None (next_handle st) (delete d (live st)) (launches st))
    | None => (Return tt, st)
    end.

(** The class as the interpreter finds it: no driver yet. *)
Definition initial (faults : list (option exn)) : state :=
  State None 0%nat ∅ faults.

(** The two entry points, as steps of a client. *)
Inductive request :=
  | Get (browser_name : string) (headless : bool)
  | Quit.

Definition step (r : request) (st : state) : outcome (option handle) * state :=
  match r with
  | Get b h => (Some <$> get_driver b h) st
  | Quit => ((λ _, None) <$> quit_driver) st
  end.

(** Running requests in order; the outcomes come back in the same order. *)
Fixpoint run (rs : list request) (st : state)
  : list (outcome (option handle)) * state :=
  match rs with
  | [] => ([], st)
  | r :: rest => let '(o, st1) := step r st in
                 let '(os, st2) := run rest st1 in
                 (o :: os, st2)
  end.

(** Two states to try the entry points on: after a first get for chrome,
    and after the quit that follows it. *)
Definition after_get : state := (get_driver "chrome" false (initial [])).2.

Definition after_quit : state := (quit_driver after_get).2.

(** States the class can be in: the handle in [_driver] and the handles of
    the running sessions have all been given out already. *)
Definition wf (st : state) : Prop :=
  (∀ d, _driver st = Some d → (d < next_handle st)%nat)
  ∧ (∀ d, is_Some (live st !! d) → (d < next_handle st)%nat).

(** A handle that was given out, is no longer in [_driver] and whose session
    has ended. *)
Definition retired (d : handle) (st : state) : Prop :=
  (d < next_handle st)%nat ∧ live st !! d = None ∧ _driver st ≠ Some d.

End DriverManager.

(* ===================================================================== *)
(** * src/pages/home_page.py *)
(* ===================================================================== *)

Module HomePage.
Import BasePage.

(** [By.ID] and [By.XPATH]. *)
Definition ID : string := "id".
Definition XPATH : string := "xpath".

Definition SEARCH_BOX : locator := (ID, "twotabsearchtextbox").
Definition SEARCH_BUTTON : locator := (ID, "nav-search-submit-button").
Definition ACCOUNT_LIST_LINK : locator := (ID, "nav-link-accountList").
Definition CART_ICON : locator := (ID, "nav-cart").
Definition AMAZON_LOGO : locator := (ID, "nav-logo-sprites").
Definition SIGN_IN_TEXT : locator :=
  (XPATH, "//span[text()='Hello, sign in']").

Section Methods.
Context {D : Type} `{Driver D} `{Actions D}.

(** [search_for_product], up to the page object it hands back. *)
Definition search_for_product (product_name : string)
  : M (world D) unit :=
  _ ← enter_text SEARCH_BOX product_name true;
  _ ← click_element SEARCH_BUTTON;
  mret tt.

Definition is_user_signed_in : M (world D) bool :=
  sign_in_text ← get_text SIGN_IN_TEXT;
  mret (negb (is_substring "sign in" (lower sign_in_text))).

(** [a and b] evaluates [b] only when [a] is true; [is_element_displayed]
    is called with its default timeout of 5. *)
Definition is_page_displayed : M (world D) bool :=
  is_element_displayed AMAZON_LOGO 5 ≫= λ logo : bool,
  if logo then is_element_displayed SEARCH_BOX 5 else mret false.

End Methods.

End HomePage.

(* ===================================================================== *)
(** * src/pages/login_page.py *)
(* ===================================================================== *)

Module LoginPage.
Import BasePage.

Definition EMAIL_FIELD : locator := (HomePage.ID, "ap_email").
Definition CONTINUE_BUTTON : locator := (HomePage.ID, "continue").
Definition PASSWORD_FIELD : locator := (HomePage.ID, "ap_password").
Definition SIGN_IN_BUTTON : locator := (HomePage.ID, "signInSubmit").
Definition ERROR_MESSAGE : locator :=
  (HomePage.XPATH, "//div[@id='auth-error-message-box']").
Definition SIGN_IN_HEADER : locator :=
  (HomePage.XPATH, "//h1[text()='Sign in']").

Section Methods.
Context {D : Type} `{Driver D} `{Actions D}.

Definition enter_email (email : string) : M (world D) (option unit) :=
  enter_text EMAIL_FIELD email true.

Definition click_continue : M (world D) (option unit) :=
  click_element CONTINUE_BUTTON.

Definition enter_password (password : string) : M (world D) (option unit) :=
  enter_text PASSWORD_FIELD password true.

(** [click_sign_in], up to the page object it hands back. *)
Definition click_sign_in : M (world D) unit :=
  _ ← click_element SIGN_IN_BUTTON; mret tt.

Definition login_with_credentials (email password : string)
  : M (world D) unit :=
  _ ← enter_email email;
  _ ← click_continue;
  _ ← enter_password password;
  click_sign_in.

Definition get_error_message : M (world D) string :=
  try_except (get_text ERROR_MESSAGE)
    [TimeoutException; NoSuchElementException]
    (λ _, mret "").

Definition is_error_message_displayed : M (world D) bool :=
  is_element_displayed ERROR_MESSAGE 5.

Definition is_page_displayed : M (world D) bool :=
  is_element_displayed SIGN_IN_HEADER 5 ≫= λ header : bool,
  if header then is_element_displayed EMAIL_FIELD 5 else mret false.

(** [wait_for_password_field]; it has no decorator. *)
Definition wait_for_password_field (timeout : Z) : M (world D) bool :=
  try_except
    (_ ← lift (until_visible timeout PASSWORD_FIELD); mret true)
    [TimeoutException]
    (λ _, mret false).

End Methods.

End LoginPage.

(* ===================================================================== *)
(** * Properties of the decorators of base_page.py *)
(* ===================================================================== *)

Section RetryFacts.
Import BasePage.
Context {D A : Type}.
Implicit Types (op : D → outcome A * D) (w : world D) (evs : list event).

Lemma invocations_app name evs1 evs2 :
  invocations name (evs1 ++ evs2)
  = (invocations name evs1 + invocations name evs2)%nat.
Proof. unfold invocations. by rewrite filter_app, length_app. Qed.

Lemma pauses_app evs1 evs2 :
  pauses (evs1 ++ evs2) = (pauses evs1 + pauses evs2)%nat.
Proof. unfold pauses. by rewrite filter_app, length_app. Qed.

Lemma invocations_call name evs :
  invocations name (Call name :: evs) = S (invocations name evs).
Proof. unfold invocations. by rewrite filter_cons_True. Qed.

Lemma invocations_log name lvl msg evs :
  invocations name (Log lvl msg :: evs) = invocations name evs.
Proof. unfold invocations. by rewrite filter_cons_False. Qed.

Lemma invocations_sleep name t evs :
  invocations name (Sleep t :: evs) = invocations name evs.
Proof. unfold invocations. by rewrite filter_cons_False. Qed.

Lemma pauses_call name evs : pauses (Call name :: evs) = pauses evs.
Proof. unfold pauses. by rewrite filter_cons_False. Qed.

Lemma pauses_log lvl msg evs : pauses (Log lvl msg :: evs) = pauses evs.
Proof. unfold pauses. by rewrite filter_cons_False. Qed.

Lemma pauses_sleep t evs : pauses (Sleep t :: evs) = S (pauses evs).
Proof. unfold pauses. by rewrite filter_cons_True. Qed.

Lemma lift_emit op ev w :
  lift op (emit ev w)
  = let '(r, d) := op (browser w) in (r, World d (trace w ++ [ev])).
Proof. reflexivity. Qed.

Lemma retry_loop_S max_retries exceptions name (func : M (world D) A)
    (k : nat) (attempt : Z) w :
  retry_loop max_retries exceptions name func (S k) attempt w
  = match func (emit (Call name) w) with
    | (Return a, w1) => (Return (Some a), w1)
    | (Raise e, w1) =>
        if isinstance e exceptions then
          if attempt =? max_retries then
            (Raise e,
             emit (Log ERROR ("Function " +:+ name +:+ " failed after "
                               +:+ str_of_int max_retries +:+ " retries: "
                               +:+ str_exn e)) w1)
          else
            retry_loop max_retries exceptions name func k (attempt + 1)
              (emit (Sleep 1)
                 (emit (Log WARNING ("Attempt " +:+ str_of_int (attempt + 1)
                                      +:+ " failed for " +:+ name +:+ ": "
                                      +:+ str_exn e +:+ ". Retrying...")) w1))
        else (Raise e, w1)
    end.
Proof. reflexivity. Qed.



(** C8 (as amended). For every [max_retries ≥ 0], an operation whose first
    invocation fails with a class outside the retried ones is invoked exactly
    once: the wrapper raises that very exception, takes no pause and logs
    nothing. *)
Theorem retry_propagates_other_failures (n : Z) exceptions name op w e d' :
  0 ≤ n →
  op (browser w) = (Raise e, d') →
  isinstance e exceptions = false →
  ∃ evs,
    retry_on_exception n exceptions name (lift op) w
    = (Raise e, World d' (trace w ++ evs))
    ∧ invocations name evs = 1%nat
    ∧ pauses evs = 0%nat
    ∧ evs = [Call name].
Proof.
  intros Hn Hop He. exists [Call name]. unfold retry_on_exception.
  replace (Z.to_nat (n + 1)) with (S (Z.to_nat n)) by lia.
  rewrite retry_loop_S, lift_emit, Hop, He.
  by rewrite invocations_call, pauses_call.
Qed.

End RetryFacts.

Section RetryExamples.
Import BasePage.



Lemma retry_propagates_other_failures_witness :
  ∃ evs,
    retry_on_exception 3 default_exceptions "click_element"
      (lift always_bad_argument) (World tt [])
    = (Raise bad_argument, World tt ([] ++ evs))
    ∧ invocations "click_element" evs = 1%nat
    ∧ pauses evs = 0%nat
    ∧ evs = [Call "click_element"].
Proof.
  apply (retry_propagates_other_failures 3 default_exceptions "click_element"
           always_bad_argument (World tt []) bad_argument tt).
  - lia.
  - reflexivity.
  - reflexivity.
Defined.

(** C8, as stated for every value of [max_retries], fails at [-1]:
    [range(0)] is empty, the operation is not invoked at all and the wrapper
    returns [None] instead of raising. *)
Lemma retry_negative_budget_never_invokes :
  ∃ w',
    retry_on_exception (-1) default_exceptions "click_element"
      (lift always_bad_argument) (World tt [])
    = (Return None, w')
    ∧ invocations "click_element" (trace w') = 0%nat.
Proof. eexists. split; reflexivity. Qed.

End RetryExamples.

(* ===================================================================== *)
(** * Properties of the guarded accessors of BasePage *)
(* ===================================================================== *)

Section GuardedAccessors.
Import BasePage.
Context {D : Type} `{Driver D}.
Implicit Types (w : world D) (loc : locator) (e : exn).

(** The selenium classes that the bodies catch are below [Exception]. *)
Lemma timeout_below_exception e :
  isinstance e [TimeoutException] = true → isinstance e [Exception] = true.
Proof. by destruct e as [[] msg attrs]. Qed.

Lemma no_such_element_below_exception e :
  isinstance e [NoSuchElementException] = true →
  isinstance e [Exception] = true.
Proof. by destruct e as [[] msg attrs]. Qed.

Lemma outside_exception_uncaught e :
  isinstance e [Exception] = false →
  isinstance e [TimeoutException; NoSuchElementException] = false.
Proof. by destruct e as [[] msg attrs]. Qed.

(** [handle_exceptions] guards the outcome of the function it wraps. *)
Lemma handle_exceptions_outcome {A} (default_return : A) name
    (func : M (world D) A) w :
  (handle_exceptions default_return name func w).1
  = guarded default_return (func (emit (Call name) w)).1.
Proof.
  unfold handle_exceptions, guarded.
  destruct (func (emit (Call name) w)) as [[t|e] w1]; [done|].
  cbn [fst]. by destruct (isinstance e [Exception]).
Qed.

(** [log_action] passes the outcome of the function it wraps on. *)
Lemma log_action_outcome {A} name (func : M (world D) A) w :
  (log_action name func w).1
  = (func (emit (Call name) (emit (Log INFO ("Executing: " +:+ name)) w))).1.
Proof.
  unfold log_action.
  destruct (func _) as [[t|e] w1]; [done|].
  by destruct (isinstance e [Exception]).
Qed.

(** A body that turns a caught exception into one below [Exception], or into
    a value, is guarded like the interaction it runs. *)
Lemma guarded_try_except {A} (default_return : A) (body : M (world D) A)
    classes (handler : exn → M (world D) A) w :
  (∀ e, isinstance e classes = true → isinstance e [Exception] = true) →
  (∀ e w1, guarded default_return (handler e w1).1 = Return default_return) →
  guarded default_return (try_except body classes handler w).1
  = guarded default_return (body w).1.
Proof.
  intros Hbelow Hhandler. unfold try_except.
  destruct (body w) as [[t|e] w1]; [done|].
  destruct (isinstance e classes) eqn:Hcaught; [|done].
  rewrite Hhandler. cbn. by rewrite (Hbelow e Hcaught).
Qed.

Lemma get_text_body_outcome loc w :
  guarded "" (get_text_body loc w).1
  = guarded ""
      ((until_visible self_wait_timeout loc ≫= text : M D string)
         (browser w)).1.
Proof.
  unfold get_text_body.
  rewrite guarded_try_except; [|apply timeout_below_exception|done].
  unfold mbind, M_bind, mret, M_ret, log, lift. cbn.
  destruct (until_visible self_wait_timeout loc (browser w))
    as [[el|e1] d1]; cbn; [|done].
  by destruct (text el d1) as [[t|e2] d2].
Qed.

Lemma get_attribute_body_outcome loc attr w :
  guarded (Some "") (get_attribute_body loc attr w).1
  = guarded (Some "")
      ((until_present self_wait_timeout loc ≫= λ el, attribute el attr
        : M D (option string)) (browser w)).1.
Proof.
  unfold get_attribute_body.
  rewrite guarded_try_except; [|apply timeout_below_exception|done].
  unfold mbind, M_bind, lift. cbn.
  destruct (until_present self_wait_timeout loc (browser w))
    as [[el|e1] d1]; cbn; [|done].
  by destruct (attribute el attr d1) as [[t|e2] d2].
Qed.

Lemma is_element_displayed_body_outcome loc timeout w :
  guarded false (is_element_displayed_body loc timeout w).1
  = guarded false
      (((λ _, true) <$> until_visible timeout loc : M D bool) (browser w)).1.
Proof.
  unfold is_element_displayed_body.
  rewrite guarded_try_except; [|apply timeout_below_exception|done].
  unfold mbind, M_bind, fmap, M_fmap, mret, M_ret, lift. cbn.
  by destruct (until_visible timeout loc (browser w)) as [[el|e1] d1].
Qed.

Lemma is_element_present_body_outcome loc w :
  guarded false (is_element_present_body loc w).1
  = guarded false
      (((λ _, true) <$> find_element loc : M D bool) (browser w)).1.
Proof.
  unfold is_element_present_body.
  rewrite guarded_try_except; [|apply no_such_element_below_exception|done].
  unfold mbind, M_bind, fmap, M_fmap, mret, M_ret, lift. cbn.
  by destruct (find_element loc (browser w)) as [[el|e1] d1].
Qed.

Lemma get_text_outcome loc w :
  (get_text loc w).1
  = guarded ""
      ((until_visible self_wait_timeout loc ≫= text : M D string)
         (browser w)).1.
Proof.
  unfold get_text.
  by rewrite log_action_outcome, handle_exceptions_outcome,
    get_text_body_outcome.
Qed.

Lemma get_attribute_outcome loc attr w :
  (get_attribute loc attr w).1
  = guarded (Some "")
      ((until_present self_wait_timeout loc ≫= λ el, attribute el attr
        : M D (option string)) (browser w)).1.
Proof.
  unfold get_attribute.
  by rewrite handle_exceptions_outcome, get_attribute_body_outcome.
Qed.

Lemma is_element_displayed_outcome loc timeout w :
  (is_element_displayed loc timeout w).1
  = guarded false
      (((λ _, true) <$> until_visible timeout loc : M D bool) (browser w)).1.
Proof.
  unfold is_element_displayed.
  by rewrite handle_exceptions_outcome, is_element_displayed_body_outcome.
Qed.

Lemma is_element_present_outcome loc w :
  (is_element_present loc w).1
  = guarded false
      (((λ _, true) <$> find_element loc : M D bool) (browser w)).1.
Proof.
  unfold is_element_present.
  by rewrite handle_exceptions_outcome, is_element_present_body_outcome.
Qed.

(** What a guarded accessor raises is no [Exception]. *)
Lemma guarded_raises {A} (default_return : A) r e :
  guarded default_return r = Raise e → isinstance e [Exception] = false.
Proof.
  destruct r as [t|e']; [done|]. cbn.
  destruct (isinstance e' [Exception]) eqn:He; [done|]. by intros [= <-].
Qed.

Lemma get_text_raises loc w e w1 :
  get_text loc w = (Raise e, w1) → isinstance e [Exception] = false.
Proof.
  intros Hrun. pose proof (get_text_outcome loc w) as Hguarded.
  rewrite Hrun in Hguarded. symmetry in Hguarded.
  by apply guarded_raises in Hguarded.
Qed.

(** The browser after [is_element_displayed] is the browser after the
    wait. *)
Lemma is_element_displayed_browser loc timeout w :
  browser (is_element_displayed loc timeout w).2
  = (until_visible timeout loc (browser w)).2.
Proof.
  unfold is_element_displayed, handle_exceptions, is_element_displayed_body.
  unfold try_except, mbind, M_bind, mret, M_ret, lift, emit.
  cbn [browser trace].
  destruct (until_visible timeout loc (browser w)) as [[el|e] d1]; [done|].
  destruct (isinstance e [TimeoutException]); [done|].
  by destruct (isinstance e [Exception]).
Qed.

(** C10, amended. Each of the four guarded accessors ends as its driver
    interactions end, guarded by [except Exception]: when the interactions
    return, [get_text] and [get_attribute] return what was read and
    [is_element_displayed] and [is_element_present] return [True]; when an
    interaction fails with an instance of [Exception], a timeout included,
    [get_text] and [get_attribute] return the empty string and the other two
    [False]; when it fails with an exception that is no [Exception], that
    exception reaches the caller. *)
Theorem guarded_accessors_outcome loc attr timeout w :
  (get_text loc w).1
  = guarded ""
      ((until_visible self_wait_timeout loc ≫= text : M D string)
         (browser w)).1
  ∧ (get_attribute loc attr w).1
    = guarded (Some "")
        ((until_present self_wait_timeout loc ≫= λ el, attribute el attr
          : M D (option string)) (browser w)).1
  ∧ (is_element_displayed loc timeout w).1
    = guarded false
        (((λ _, true) <$> until_visible timeout loc : M D bool)
           (browser w)).1
  ∧ (is_element_present loc w).1
    = guarded false
        (((λ _, true) <$> find_element loc : M D bool) (browser w)).1.
Proof.
  split; [apply get_text_outcome|].
  split; [apply get_attribute_outcome|].
  split; [apply is_element_displayed_outcome|apply is_element_present_outcome].
Qed.

End GuardedAccessors.

Section GuardedAccessorsExamples.
Import BasePage.

(** On a page without the element asked for, the first driver interaction of
    each accessor fails with a selenium exception, and each of them answers
    with its default. *)
Lemma guarded_accessors_outcome_witness :
  (get_text ("id", "missing") sample_world).1 = Return ""
  ∧ (get_attribute ("id", "missing") "href" sample_world).1
    = Return (Some "")
  ∧ (is_element_displayed ("id", "missing") 5 sample_world).1 = Return false
  ∧ (is_element_present ("id", "missing") sample_world).1 = Return false.
Proof.
  exact (guarded_accessors_outcome ("id", "missing") "href" 5 sample_world).
Defined.

(** C10, as the spec has it, fails: when the user interrupts the run while
    the driver is waiting, each of the four accessors raises
    [KeyboardInterrupt] to its caller. *)
Theorem guarded_accessors_raise_on_interrupt :
  (get_text ("id", "nav-logo") interrupted_world).1 = Raise interrupted
  ∧ (get_attribute ("id", "nav-logo") "href" interrupted_world).1
    = Raise interrupted
  ∧ (is_element_displayed ("id", "nav-logo") 5 interrupted_world).1
    = Raise interrupted
  ∧ (is_element_present ("id", "nav-logo") interrupted_world).1
    = Raise interrupted.
Proof. repeat split. Qed.

End GuardedAccessorsExamples.

(* ===================================================================== *)
(** * Properties of the getters of ConfigManager *)
(* ===================================================================== *)

Section Getters.
Import ConfigManager.
Implicit Types (st : state) (self : ref) (cfg : ConfigParser).
Implicit Types (section key : string) (e : exn).

(** ** Interpolation *)

(** A text without the character is not split. *)
Lemma split_at_without c s :
  is_substring (String c "") s = false → split_at c s = (s, "").
Proof.
  induction s as [|a s IH]; [done|]. cbn [is_substring startswith split_at].
  intros Hs. apply orb_false_elim in Hs as [Hhere Hlater].
  rewrite bool_decide_eq_false_2.
  - by rewrite (IH Hlater).
  - intros ->. rewrite bool_decide_eq_true_2 in Hhere by done.
    by destruct s.
Qed.

(** The two parts of a split make up the text. *)
Lemma split_at_length c s before from :
  split_at c s = (before, from) →
  String.length s = (String.length before + String.length from)%nat.
Proof.
  revert before from. induction s as [|a s IH]; intros before from;
    cbn [split_at]; [by intros [= <- <-]|].
  case_bool_decide; [by intros [= <- <-]|].
  destruct (split_at c s) as [b f]. intros [= <- <-].
  cbn [String.length]. by rewrite (IH b f eq_refl).
Qed.

(** What is left after a reference is shorter than what came before. *)
Lemma key_reference_length after name remaining :
  key_reference after = Some (name, remaining) →
  (String.length remaining < String.length after)%nat.
Proof.
  unfold key_reference.
  destruct (split_at ")" after) as [[|c n] [|p [|s r]]] eqn:Hsplit; try done.
  case_bool_decide; [|done]. intros [= _ <-].
  apply split_at_length in Hsplit. rewrite Hsplit. cbn [String.length]. lia.
Qed.

Lemma append_empty_r (s : string) : s +:+ "" = s.
Proof.
  induction s as [|c s IH]; [done|].
  change (String c (s +:+ "") = String c s). by rewrite IH.
Qed.

(** The loop of [_interpolate_some] ends within as many rounds as [rest] has
    characters: with that much fuel or more, the outcome is the same. *)
Lemma interpolate_loop_fuel section key rawval (d : gmap string string)
    into (n m : nat) rest accum :
  (String.length rest ≤ n)%nat → (String.length rest ≤ m)%nat →
  interpolate_loop section key rawval d into n rest accum
  = interpolate_loop section key rawval d into m rest accum.
Proof.
  revert m rest accum.
  induction n as [|n IH]; intros m rest accum Hn Hm.
  - destruct rest as [|c rest]; [|cbn in Hn; lia].
    destruct m as [|m]; [done|]. cbn. by rewrite append_empty_r.
  - destruct m as [|m].
    { destruct rest as [|c rest]; [|cbn in Hm; lia].
      cbn. by rewrite append_empty_r. }
    cbn [interpolate_loop].
    destruct (split_at "%" rest) as [text [|p after]] eqn:Hsplit; [done|].
    apply split_at_length in Hsplit. cbn [String.length] in Hsplit.
    destruct after as [|c after]; [done|]. cbn [String.length] in Hsplit.
    case_bool_decide; [apply IH; lia|].
    case_bool_decide; [|done].
    destruct (key_reference after) as [[name rest']|] eqn:Href; [|done].
    apply key_reference_length in Href.
    destruct (d !! optionxform name) as [v|]; [|done].
    destruct (is_substring "%" v); [|apply IH; lia].
    destruct (into v (accum +:+ text)); [apply IH; lia|done].
Qed.

(** A text without a percent sign is handed out as it is stored. *)
Lemma before_get_plain section key value (d : gmap string string) :
  is_substring "%" value = false →
  before_get section key value d = Return value.
Proof.
  intros Hplain. unfold before_get, MAX_INTERPOLATION_DEPTH.
  cbn [_interpolate_some]. destruct value as [|c value]; [done|].
  cbn [String.length interpolate_loop].
  by rewrite (split_at_without _ _ Hplain).
Qed.

(** A text that [int] accepts has no percent sign: [int] takes white
    space, a sign, digits and underscores only. *)
Lemma percent_among_characters s :
  is_substring "%" s = true → "%"%char ∈ String.list_ascii_of_string s.
Proof.
  induction s as [|a s IH]; [done|].
  cbn [is_substring startswith String.list_ascii_of_string].
  intros Hs. apply orb_true_iff in Hs as [Hhere|Hlater].
  - apply andb_true_iff in Hhere as [Hhere _].
    apply bool_decide_eq_true_1 in Hhere as <-. apply list_elem_of_here.
  - apply list_elem_of_further. by apply IH.
Qed.

Lemma lstrip_keeps_percent (l : list ascii) :
  "%"%char ∈ l → "%"%char ∈ lstrip l.
Proof.
  induction l as [|c l IH]; [done|]. cbn [lstrip].
  destruct (isspace c) eqn:Hspace; [|done].
  intros Hin. apply elem_of_cons in Hin as [<-|Hin]; [done|]. by apply IH.
Qed.

Lemma strip_keeps_percent (l : list ascii) :
  "%"%char ∈ l → "%"%char ∈ strip l.
Proof.
  intros Hin. unfold strip.
  apply list_elem_of_In, in_rev. rewrite rev_involutive.
  apply list_elem_of_In, lstrip_keeps_percent.
  apply list_elem_of_In. rewrite <- in_rev.
  by apply list_elem_of_In, lstrip_keeps_percent.
Qed.

Lemma int_digits_without_percent acc need_digit (l : list ascii) n :
  int_digits acc need_digit l = Some n → "%"%char ∉ l.
Proof.
  revert acc need_digit.
  induction l as [|c l IH]; intros acc need_digit; [by intros _ ?%elem_of_nil|].
  intros Hdigits Hin. apply elem_of_cons in Hin as [<-|Hin].
  - cbn in Hdigits. by destruct need_digit.
  - cbn [int_digits] in Hdigits. destruct (Ascii.is_nat c).
    + by eapply IH.
    + destruct (bool_decide (c = "_"%char) && negb need_digit); [|done].
      by eapply IH.
Qed.

Lemma int_of_str_without_percent s n :
  int_of_str s = Some n → is_substring "%" s = false.
Proof.
  intros Hint. destruct (is_substring "%" s) eqn:Hpercent; [|done].
  exfalso.
  apply percent_among_characters, strip_keeps_percent in Hpercent.
  revert Hint Hpercent. unfold int_of_str.
  destruct (strip (String.list_ascii_of_string s)) as [|c l];
    [by intros _ ?%elem_of_nil|].
  assert ("%"%char ∈ c :: l → c ≠ "%"%char → "%"%char ∈ l) as Hrest.
  { intros Hin Hc. by apply elem_of_cons in Hin as [<-|Hin]. }
  destruct c as [[] [] [] [] [] [] [] []]; cbn [fmap option_fmap option_map];
    intros Hint Hin;
    first [ by eapply int_digits_without_percent
          | destruct (int_digits 0 true l) as [m|] eqn:Hdigits; [|done];
            eapply int_digits_without_percent; [exact Hdigits|];
            by apply Hrest
          | eapply int_digits_without_percent; [exact Hint|];
            by apply Hrest ].
Qed.

(** Whatever the interpolation raises is an [InterpolationError]. *)
Lemma interpolate_loop_raises section key rawval (d : gmap string string)
    into fuel rest accum e :
  (∀ v acc e', into v acc = Raise e' →
               isinstance e' [InterpolationError] = true) →
  interpolate_loop section key rawval d into fuel rest accum = Raise e →
  isinstance e [InterpolationError] = true.
Proof.
  intros Hinto. revert rest accum.
  induction fuel as [|n IH]; intros rest accum; cbn [interpolate_loop];
    [done|].
  destruct (split_at "%" rest) as [text [|p after]]; [done|].
  destruct after as [|c after]; [by intros [= <-]|].
  case_bool_decide; [by apply IH|].
  case_bool_decide; [|by intros [= <-]].
  destruct (key_reference after) as [[name rest']|]; [|by intros [= <-]].
  destruct (d !! optionxform name) as [v|]; [|by intros [= <-]].
  destruct (is_substring "%" v); [|by apply IH].
  destruct (into v (accum +:+ text)) as [acc|e'] eqn:Hdeeper; [by apply IH|].
  intros [= <-]. by eapply Hinto.
Qed.

Lemma interpolate_some_raises section key rawval (d : gmap string string)
    levels rest accum e :
  _interpolate_some section key rawval d levels rest accum = Raise e →
  isinstance e [InterpolationError] = true.
Proof.
  revert rest accum e.
  induction levels as [|below IH]; intros rest accum e;
    cbn [_interpolate_some]; [by intros [= <-]|].
  apply interpolate_loop_raises. intros v acc e'. apply IH.
Qed.

(** An [InterpolationError] is none of the two classes that the getters
    catch. *)
Lemma interpolation_error_uncaught e :
  isinstance e [InterpolationError] = true →
  isinstance e [NoSectionError; NoOptionError] = false.
Proof. by destruct e as [[] msg attrs]. Qed.

(** ** [get] on the parser *)

(** With a text stored, [get] answers with the interpolation of that text,
    in view of the options of the section and the defaults. *)
Lemma parser_get_interpolates cfg section key raw :
  stored cfg section key = Some raw →
  ∃ d, unify_values cfg section = Some d
       ∧ parser_get cfg section key
         = before_get section (optionxform key) raw d.
Proof.
  unfold stored, parser_get.
  destruct (unify_values cfg section) as [d|]; cbn; [|done].
  intros ->. by exists d.
Qed.

(** [get] answers with the stored text when it has no percent sign. *)
Lemma parser_get_stored cfg section key s :
  stored cfg section key = Some s →
  is_substring "%" s = false →
  parser_get cfg section key = Return s.
Proof.
  intros Hs Hplain.
  destruct (parser_get_interpolates _ _ _ _ Hs) as (d & _ & ->).
  by apply before_get_plain.
Qed.

(** With a text stored, [get] raises nothing but an [InterpolationError]. *)
Lemma parser_get_stored_raises cfg section key raw e :
  stored cfg section key = Some raw →
  parser_get cfg section key = Raise e →
  isinstance e [InterpolationError] = true.
Proof.
  intros Hs. destruct (parser_get_interpolates _ _ _ _ Hs) as (d & _ & ->).
  apply interpolate_some_raises.
Qed.

(** And with [NoSectionError] or [NoOptionError] when there is none. *)
Lemma parser_get_absent cfg section key :
  stored cfg section key = None →
  ∃ e, parser_get cfg section key = Raise e
       ∧ isinstance e [NoSectionError; NoOptionError] = true.
Proof.
  unfold stored, parser_get.
  destruct (unify_values cfg section) as [d|]; cbn.
  - intros ->. by eexists.
  - intros _. by eexists.
Qed.

Lemma get_conv_stored {A} (conv : string → option A) why cfg section key s :
  stored cfg section key = Some s →
  is_substring "%" s = false →
  get_conv conv why cfg section key
  = match conv s with
    | Some a => Return a
    | None => Raise (make_exn ValueError (why s))
    end.
Proof.
  intros Hs Hplain. unfold get_conv.
  by rewrite (parser_get_stored _ _ _ _ Hs Hplain).
Qed.

Lemma get_conv_absent {A} (conv : string → option A) why cfg section key :
  stored cfg section key = None →
  ∃ e, get_conv conv why cfg section key = Raise e
       ∧ isinstance e [NoSectionError; NoOptionError] = true.
Proof.
  intros Hs. destruct (parser_get_absent _ _ _ Hs) as (e & He & Hc).
  exists e. unfold get_conv. by rewrite He.
Qed.

(** The shape shared by the three typed getters. *)
Lemma typed_getter_absent {A} (conv : string → option A) why st self
    section key (fallback : A) :
  stored (config_of st self) section key = None →
  try_except (on_config self (λ cfg, get_conv conv why cfg section key))
    [NoSectionError; NoOptionError] (λ _, mret fallback) st
  = (Return fallback, st).
Proof.
  intros Hs. destruct (get_conv_absent conv why _ _ _ Hs) as (e & He & Hc).
  unfold try_except, on_config. by rewrite He, Hc.
Qed.

Lemma typed_getter_stored {A} (conv : string → option A) why st self
    section key (fallback : A) s :
  stored (config_of st self) section key = Some s →
  is_substring "%" s = false →
  try_except (on_config self (λ cfg, get_conv conv why cfg section key))
    [NoSectionError; NoOptionError] (λ _, mret fallback) st
  = match conv s with
    | Some a => (Return a, st)
    | None => (Raise (make_exn ValueError (why s)), st)
    end.
Proof.
  intros Hs Hplain. unfold try_except, on_config.
  rewrite (get_conv_stored conv why _ _ _ _ Hs Hplain).
  by destruct (conv s).
Qed.

(** With a text stored, a typed getter converts what [get] hands out, and
    lets the failure of [get] and that of the conversion through. *)
Lemma typed_getter_present {A} (conv : string → option A) why st self
    section key (fallback : A) raw :
  stored (config_of st self) section key = Some raw →
  try_except (on_config self (λ cfg, get_conv conv why cfg section key))
    [NoSectionError; NoOptionError] (λ _, mret fallback) st
  = match parser_get (config_of st self) section key with
    | Return v =>
        match conv v with
        | Some a => (Return a, st)
        | None => (Raise (make_exn ValueError (why v)), st)
        end
    | Raise e => (Raise e, st)
    end.
Proof.
  intros Hs. unfold try_except, on_config, get_conv.
  destruct (parser_get (config_of st self) section key) as [v|e] eqn:Hget.
  - by destruct (conv v).
  - by rewrite (interpolation_error_uncaught e
                  (parser_get_stored_raises _ _ _ _ _ Hs Hget)).
Qed.

Lemma append_assoc (s1 s2 s3 : string) :
  (s1 +:+ s2) +:+ s3 = s1 +:+ s2 +:+ s3.
Proof.
  induction s1 as [|c s1 IH]; [reflexivity|].
  change (String c ((s1 +:+ s2) +:+ s3) = String c (s1 +:+ s2 +:+ s3)).
  by rewrite IH.
Qed.

(** C1, amended. The typed getters fall back only when the key is missing.
    For every section, key and fallback, [get_int], [get_boolean] and
    [get_float] return the fallback when nothing is stored under the key.
    When a text is stored, they convert what the parser's [get] hands out,
    which is the stored text itself when that has no percent sign and its
    interpolation otherwise: they return the converted value when the text
    converts; when it does not, the [ValueError] of the conversion reaches
    the caller; and when the interpolation fails, its [InterpolationError]
    reaches the caller. With a text stored the fallback is never used. *)
Theorem typed_getters_fallback_policy (float : Type)
    (float_of_str : string → option float) st self section key :
  (stored (config_of st self) section key = None →
   ∀ (i : Z) (b : bool) (x : float),
     get_int self section key i st = (Return i, st)
     ∧ get_boolean self section key b st = (Return b, st)
     ∧ get_float float float_of_str self section key x st = (Return x, st))
  ∧ (∀ raw, stored (config_of st self) section key = Some raw →
     (is_substring "%" raw = false →
      parser_get (config_of st self) section key = Return raw)
     ∧ ∀ (i : Z) (b : bool) (x : float),
         match parser_get (config_of st self) section key with
         | Return s =>
             get_int self section key i st
             = match int_of_str s with
               | Some n => (Return n, st)
               | None =>
                   (Raise (make_exn ValueError
                             ("invalid literal for int() with base 10: "
                              +:+ repr s)), st)
               end
             ∧ get_boolean self section key b st
               = match convert_to_boolean s with
                 | Some v => (Return v, st)
                 | None =>
                     (Raise (make_exn ValueError ("Not a boolean: " +:+ s)),
                      st)
                 end
             ∧ get_float float float_of_str self section key x st
               = match float_of_str s with
                 | Some v => (Return v, st)
                 | None =>
                     (Raise (make_exn ValueError
                               ("could not convert string to float: "
                                +:+ repr s)), st)
                 end
         | Raise e =>
             isinstance e [InterpolationError] = true
             ∧ get_int self section key i st = (Raise e, st)
             ∧ get_boolean self section key b st = (Raise e, st)
             ∧ get_float float float_of_str self section key x st
               = (Raise e, st)
         end).
Proof.
  split.
  - intros Hs i b x. unfold get_int, get_boolean, get_float.
    unfold getint, getboolean, getfloat.
    by rewrite !typed_getter_absent.
  - intros raw Hs. split; [by apply parser_get_stored|].
    intros i b x. unfold get_int, get_boolean, get_float.
    unfold getint, getboolean, getfloat.
    rewrite !(typed_getter_present _ _ _ _ _ _ _ raw Hs).
    destruct (parser_get (config_of st self) section key) as [s|e] eqn:Hget;
      [done|].
    split; [|done]. by eapply parser_get_stored_raises.
Qed.

(** C5, amended. When the key is present, [get_property] returns what the
    parser's [get] hands out, whatever the fallback: the stored text itself
    when that has no percent sign, its interpolation otherwise, and when the
    interpolation fails its [InterpolationError] reaches the caller. When the
    key is absent and a fallback other than [None] is given, it logs a warning
    and returns [str(fallback)]; when it is absent and the fallback is [None],
    it raises a [KeyError] whose message contains [section.key]. *)
Theorem get_property_policy st self section key fallback :
  (∀ raw, stored (config_of st self) section key = Some raw →
     get_property self section key fallback st
     = (parser_get (config_of st self) section key, st)
     ∧ (is_substring "%" raw = false →
        get_property self section key fallback st = (Return raw, st))
     ∧ (∀ e, parser_get (config_of st self) section key = Raise e →
             isinstance e [InterpolationError] = true))
  ∧ (stored (config_of st self) section key = None →
     fallback ≠ VNone →
     get_property self section key fallback st
     = (Return (str fallback),
        emit (Log WARNING ("Using fallback value for " +:+ section +:+ "."
                           +:+ key +:+ ": " +:+ str fallback)) st))
  ∧ (stored (config_of st self) section key = None →
     fallback = VNone →
     ∃ e, get_property self section key fallback st = (Raise e, st)
          ∧ exn_cls e = KeyError
          ∧ contains (exn_msg e) (section +:+ "." +:+ key)).
Proof.
  split; [|split].
  - intros raw Hs.
    assert (get_property self section key fallback st
            = (parser_get (config_of st self) section key, st)) as Hget.
    { unfold get_property, try_except, on_config.
      destruct (parser_get (config_of st self) section key) as [s|e] eqn:Hget;
        [done|].
      by rewrite (interpolation_error_uncaught e
                    (parser_get_stored_raises _ _ _ _ _ Hs Hget)). }
    split; [done|]. split.
    + intros Hplain. by rewrite Hget, (parser_get_stored _ _ _ _ Hs Hplain).
    + intros e. by apply parser_get_stored_raises with raw.
  - intros Hs Hf. destruct (parser_get_absent _ _ _ Hs) as (e & He & Hc).
    unfold get_property, try_except, on_config. rewrite He, Hc.
    by destruct fallback.
  - intros Hs ->. destruct (parser_get_absent _ _ _ Hs) as (e & He & Hc).
    unfold get_property, try_except, on_config. rewrite He, Hc.
    eexists. split; [reflexivity|]. split; [reflexivity|].
    exists "Property '", "' not found in configuration". cbn [exn_msg make_exn].
    by rewrite !append_assoc.
Qed.

End Getters.

Section GettersExamples.
Import ConfigManager.

(** A missing key, a number, and a number followed by a percent sign. *)
Lemma typed_getters_fallback_policy_witness :
  get_int 0%nat "EXECUTION" "thread_count" 1 sample_state
  = (Return 1, sample_state)
  ∧ get_int 0%nat "TIMEOUTS" "page_load_timeout" 30 sample_state
    = (Return 45, sample_state)
  ∧ get_int 0%nat "TIMEOUTS" "page_load_timeout" 30 percent_state
    = (Raise (make_exn InterpolationSyntaxError
                "'%' must be followed by '%' or '(', found: '%'"),
       percent_state).
Proof.
  destruct (typed_getters_fallback_policy Z whole_number sample_state 0%nat
              "EXECUTION" "thread_count") as [Habsent _].
  destruct (typed_getters_fallback_policy Z whole_number sample_state 0%nat
              "TIMEOUTS" "page_load_timeout") as [_ Hstored].
  destruct (typed_getters_fallback_policy Z whole_number percent_state 0%nat
              "TIMEOUTS" "page_load_timeout") as [_ Hpercent].
  destruct (Hstored "45" ltac:(vm_compute; reflexivity)) as [_ Hnumber].
  specialize (Hnumber 30 true 0).
  destruct (Hpercent "50%" ltac:(vm_compute; reflexivity)) as [_ Hbare].
  specialize (Hbare 30 true 0).
  split; [|split].
  - apply (Habsent ltac:(vm_compute; reflexivity) 1 true 0).
  - vm_compute in Hnumber. vm_compute. apply Hnumber.
  - vm_compute in Hbare. vm_compute. apply Hbare.
Defined.

(** C1, as stated, fails: with the text [soon] stored under
    [TIMEOUTS.implicit_wait_timeout], [get_int] with fallback 5 raises
    [ValueError] instead of returning 5, and so does [get_boolean] with
    fallback [False] on the text [maybe]. *)
Lemma get_int_raises_on_text :
  get_int 0%nat "TIMEOUTS" "implicit_wait_timeout" 5 sample_state
  = (Raise (make_exn ValueError
              "invalid literal for int() with base 10: 'soon'"),
     sample_state)
  ∧ get_boolean 0%nat "BROWSER" "headless" false sample_state
    = (Raise (make_exn ValueError "Not a boolean: maybe"), sample_state).
Proof. split; vm_compute; reflexivity. Qed.

(** A key that is present, a key that is absent with a fallback, and a key
    that is absent without one, in a section that the file does not have. *)
Lemma get_property_policy_witness :
  get_property 0%nat "URLS" "login_url" VNone sample_state
  = (Return "https://shop.example/signin", sample_state)
  ∧ get_property 0%nat "AMAZON_TEST_DATA" "search_product" (VStr "laptop")
      sample_state
    = (Return "laptop",
       emit (Log WARNING
               "Using fallback value for AMAZON_TEST_DATA.search_product: laptop")
         sample_state)
  ∧ ∃ e, get_property 0%nat "CREDENTIALS" "test_email" VNone sample_state
         = (Raise e, sample_state)
         ∧ exn_cls e = KeyError
         ∧ contains (exn_msg e) "CREDENTIALS.test_email".
Proof.
  destruct (get_property_policy sample_state 0%nat "URLS" "login_url" VNone)
    as (Hpresent & _ & _).
  destruct (Hpresent "https://shop.example/signin"
              ltac:(vm_compute; reflexivity)) as (_ & Hplain & _).
  destruct (get_property_policy sample_state 0%nat "AMAZON_TEST_DATA"
              "search_product" (VStr "laptop")) as (_ & Hfallback & _).
  destruct (get_property_policy sample_state 0%nat "CREDENTIALS" "test_email"
              VNone) as (_ & _ & Hnone).
  split; [|split].
  - apply Hplain. vm_compute. reflexivity.
  - apply Hfallback; [vm_compute; reflexivity|done].
  - apply Hnone; vm_compute; reflexivity.
Defined.

(** C5, as stated, fails: with the password [P@ss%word] stored, the key is
    present and [get_property] raises [InterpolationSyntaxError] instead of
    returning the stored text, with and without a fallback. *)
Theorem get_property_raises_on_percent :
  stored (config_of percent_state 0%nat) "CREDENTIALS" "test_password"
  = Some "P@ss%word"
  ∧ ∀ fallback,
      get_property 0%nat "CREDENTIALS" "test_password" fallback percent_state
      = (Raise (make_exn InterpolationSyntaxError
                  "'%' must be followed by '%' or '(', found: '%word'"),
         percent_state).
Proof. split; [vm_compute; reflexivity|]. by intros []. Qed.

End GettersExamples.

(* ===================================================================== *)
(** * Properties of the singleton and of the cached accessors *)
(* ===================================================================== *)

Section CachedAccessors.
Import ConfigManager.
Implicit Types (st : state) (self : ref) (a : accessor) (ev : event).

Lemma occurrences_app ev (tr1 tr2 : list event) :
  occurrences ev (tr1 ++ tr2)
  = (occurrences ev tr1 + occurrences ev tr2)%nat.
Proof. unfold occurrences. by rewrite filter_app, length_app. Qed.

Lemma occurrences_one ev : occurrences ev [ev] = 1%nat.
Proof. unfold occurrences. by rewrite filter_cons_True. Qed.

Lemma occurrences_logs ev (logs : list event) :
  is_log ev = false →
  Forall (λ e, is_log e = true) logs →
  occurrences ev logs = 0%nat.
Proof.
  intros Hev. unfold occurrences. induction 1 as [|e logs He _ IH]; [done|].
  rewrite filter_cons_False; [exact IH|]. intros ->. congruence.
Qed.

Lemma logged_refl st : logged st st.
Proof. exists []. destruct st. cbn. by rewrite app_nil_r. Qed.

Lemma logged_trans st st1 st2 : logged st st1 → logged st1 st2 → logged st st2.
Proof.
  intros (l1 & -> & H1) (l2 & -> & H2). exists (l1 ++ l2). cbn.
  rewrite app_assoc. split; [done|]. by apply Forall_app.
Qed.

Lemma logged_log lvl msg st : logged st (emit (Log lvl msg) st).
Proof. exists [Log lvl msg]. split; [done|]. by repeat constructor. Qed.

Lemma logged_occurrences ev st st1 :
  is_log ev = false → logged st st1 →
  occurrences ev (trace st1) = occurrences ev (trace st).
Proof.
  intros Hev (logs & -> & Hlogs). cbn [trace].
  rewrite occurrences_app, (occurrences_logs _ _ Hev Hlogs). lia.
Qed.

Lemma logged_caches st st1 : logged st st1 → caches st1 = caches st.
Proof. by intros (logs & -> & _). Qed.

(** The getters only read the parser and log. *)
Lemma get_property_logged self section key fallback st r st1 :
  get_property self section key fallback st = (r, st1) → logged st st1.
Proof.
  unfold get_property, try_except, on_config.
  destruct (parser_get _ _ _) as [v|e].
  - intros [= _ <-]. apply logged_refl.
  - destruct (isinstance e _).
    + destruct fallback; cbn; intros [= _ <-];
        first [apply logged_refl | apply logged_log].
    + intros [= _ <-]. apply logged_refl.
Qed.

Lemma typed_getter_logged {A} (get : ConfigParser → outcome A) self
    (fallback : A) st r st1 :
  try_except (on_config self get) [NoSectionError; NoOptionError]
    (λ _, mret fallback) st = (r, st1) →
  logged st st1.
Proof.
  unfold try_except, on_config.
  destruct (get _) as [v|e].
  - intros [= _ <-]. apply logged_refl.
  - destruct (isinstance e _); cbn; intros [= _ <-]; apply logged_refl.
Qed.

Lemma validate_config_logged {A} (valid : option (A → bool)) fmt
    (f : M state A) st r st1 :
  (∀ r' st', f st = (r', st') → logged st st') →
  validate_config valid fmt f st = (r, st1) → logged st st1.
Proof.
  intros Hf. unfold validate_config, mbind, M_bind.
  destruct (f st) as [[x|e] st'] eqn:Hrun.
  - destruct valid as [valid|]; [destruct (valid x)|]; cbn;
      intros [= _ <-]; eauto.
  - intros [= _ <-]. eauto.
Qed.

Lemma fmap_logged {A B} (g : A → B) (f : M state A) st r st1 :
  (∀ r' st', f st = (r', st') → logged st st') →
  (g <$> f) st = (r, st1) → logged st st1.
Proof.
  intros Hf. unfold fmap, M_fmap.
  destruct (f st) as [[x|e] st'] eqn:Hrun; intros [= _ <-]; eauto.
Qed.

(** So does the function under the cache of every accessor. *)
Lemma func_logged a self st r st1 :
  func a self st = (r, st1) → logged st st1.
Proof.
  destruct a; cbn [func]; apply fmap_logged; intros r' st';
    first [ apply validate_config_logged; intros r2 st2 |
            idtac ];
    first [ apply get_property_logged
          | apply (typed_getter_logged (λ cfg, getint cfg _ _))
          | apply (typed_getter_logged (λ cfg, getboolean cfg _ _)) ].
Qed.

(** ** The cache *)

Lemma call_miss a self st :
  cache_find self (cache_of st a) = None →
  call a self st
  = match func a self (emit (Compute a) st) with
    | (Return v, st1) =>
        (Return v,
         set_caches (<[a := take maxsize ((self, v) :: cache_of st1 a)]>
                       (caches st1)) st1)
    | (Raise e, st1) => (Raise e, st1)
    end.
Proof. intros Hmiss. unfold call, cache_config. by rewrite Hmiss. Qed.

Lemma call_hit a self st v :
  cache_find self (cache_of st a) = Some v →
  call a self st
  = (Return v,
     set_caches (<[a := (self, v) :: cache_remove self (cache_of st a)]>
                   (caches st)) st).
Proof. intros Hhit. unfold call, cache_config. by rewrite Hhit. Qed.

Lemma occurrences_emit ev st :
  occurrences ev (trace (emit ev st)) = S (occurrences ev (trace st)).
Proof. cbn [emit trace]. rewrite occurrences_app, occurrences_one. lia. Qed.

(** A miss invokes the wrapped function exactly once, however it ends. *)
Lemma call_miss_computes a self st r st1 :
  cache_find self (cache_of st a) = None →
  call a self st = (r, st1) →
  occurrences (Compute a) (trace st1)
  = S (occurrences (Compute a) (trace st)).
Proof.
  intros Hmiss. rewrite (call_miss _ _ _ Hmiss).
  destruct (func a self (emit (Compute a) st)) as [[v|e] st'] eqn:Hrun;
    intros [= _ <-]; cbn [set_caches trace];
    rewrite (logged_occurrences (Compute a) _ _ eq_refl
               (func_logged _ _ _ _ _ Hrun));
    apply occurrences_emit.
Qed.

(** A miss that returns leaves its result in the cache. *)
Lemma call_miss_stores a self st v st1 :
  cache_find self (cache_of st a) = None →
  call a self st = (Return v, st1) →
  cache_find self (cache_of st1 a) = Some v.
Proof.
  intros Hmiss. rewrite (call_miss _ _ _ Hmiss).
  destruct (func a self (emit (Compute a) st)) as [[v'|e] st'] eqn:Hrun;
    intros [= <- <-].
  unfold cache_of at 1. cbn [set_caches caches].
  rewrite lookup_insert_eq.
  change (cache_find self ((self, v') :: take 127 (cache_of st' a)) = Some v').
  cbn [cache_find]. by rewrite bool_decide_eq_true_2.
Qed.

(** A miss that raises leaves the cache as it was. *)
Lemma call_miss_raises a self st e st1 :
  cache_find self (cache_of st a) = None →
  call a self st = (Raise e, st1) →
  cache_find self (cache_of st1 a) = None.
Proof.
  intros Hmiss. rewrite (call_miss _ _ _ Hmiss).
  destruct (func a self (emit (Compute a) st)) as [[v'|e'] st'] eqn:Hrun;
    intros [= <- <-].
  unfold cache_of. rewrite (logged_caches _ _ (func_logged _ _ _ _ _ Hrun)).
  exact Hmiss.
Qed.

Lemma cached_methods_complete a : a ∈ cached_methods.
Proof. apply list_elem_of_In. destruct a; cbn; tauto. Qed.

Lemma cache_clear_all a (l : list accessor) st :
  a ∈ l ∨ caches st !! a = None →
  caches (foldl (λ s a', cache_clear a' s) st l) !! a = None.
Proof.
  revert st. induction l as [|x l IH]; intros st Ha; cbn [foldl].
  - destruct Ha as [Ha|Ha]; [by apply elem_of_nil in Ha | exact Ha].
  - apply IH. destruct (decide (a = x)) as [->|Hne].
    + right. cbn [cache_clear set_caches caches]. apply lookup_delete_eq.
    + destruct Ha as [Ha|Ha].
      * left. apply elem_of_cons in Ha as [?|?]; [done|assumption].
      * right. cbn [cache_clear set_caches caches].
        by rewrite lookup_delete_ne.
Qed.

Lemma load_config_effect self st r st1 :
  _load_config self st = (r, st1) →
  instance st1 = instance st
  ∧ caches st1 = caches st
  ∧ file st1 = file st
  ∧ occurrences Load (trace st1) = S (occurrences Load (trace st))
  ∧ (∀ content, file st = Wellformed content → r = Return tt).
Proof.
  unfold _load_config, log, set_config, emit.
  cbn [instance heap next_ref caches file trace].
  destruct (file st) as [|partial complaint|content] eqn:Hfile;
    intros [= <- <-]; cbn [instance heap next_ref caches file trace];
    rewrite <- ?app_assoc, !occurrences_app, occurrences_one;
    repeat split; try done; try lia.
  unfold occurrences at 2. rewrite filter_cons_False by done. cbn. lia.
Qed.

Lemma bind_returns {S A B} (m : M S A) (k : A → M S B) s b s2 :
  (m ≫= k) s = (Return b, s2) →
  ∃ x s1, m s = (Return x, s1) ∧ k x s1 = (Return b, s2).
Proof.
  unfold mbind, M_bind. destruct (m s) as [[x|e] s1]; [|done].
  intros Hk. by exists x, s1.
Qed.

Lemma clear_caches_clears st r st1 a :
  clear_caches st = (r, st1) → caches st1 !! a = None.
Proof.
  intros Hrun. replace st1 with (clear_caches st).2 by (by rewrite Hrun).
  apply (cache_clear_all a cached_methods st).
  left. apply cached_methods_complete.
Qed.

(** A reload that goes through empties the cache of every accessor. *)
Lemma reload_clears self st st1 a :
  reload_config self st = (Return tt, st1) →
  cache_of st1 a = [].
Proof.
  unfold reload_config. intros Hrun.
  apply bind_returns in Hrun as (? & st' & _ & Hrun).
  apply bind_returns in Hrun as (? & st2 & Hclear & Hlog).
  apply (clear_caches_clears _ _ _ a) in Hclear.
  unfold log in Hlog. injection Hlog as <-.
  unfold cache_of, emit. cbn [caches]. by rewrite Hclear.
Qed.

(** C6. When an accessor is called with nothing cached for its argument,
    the wrapped function is computed once. If the call returns, a second call
    with the same argument returns the same value without computing, and after
    a completed [reload_config] a third call computes again. If the call
    raises, nothing is stored and the next call computes again. *)
Theorem cached_accessor_computes_once a self st :
  cache_find self (cache_of st a) = None →
  (∀ v st1,
     call a self st = (Return v, st1) →
     occurrences (Compute a) (trace st1)
     = S (occurrences (Compute a) (trace st))
     ∧ ∃ st2,
         call a self st1 = (Return v, st2)
         ∧ trace st2 = trace st1
         ∧ ∀ st3 r st4,
             reload_config self st2 = (Return tt, st3) →
             call a self st3 = (r, st4) →
             occurrences (Compute a) (trace st4)
             = S (occurrences (Compute a) (trace st3)))
  ∧ (∀ e st1,
       call a self st = (Raise e, st1) →
       occurrences (Compute a) (trace st1)
       = S (occurrences (Compute a) (trace st))
       ∧ cache_find self (cache_of st1 a) = None
       ∧ ∀ r st2,
           call a self st1 = (r, st2) →
           occurrences (Compute a) (trace st2)
           = S (occurrences (Compute a) (trace st1))).
Proof.
  intros Hmiss. split.
  - intros v st1 Hcall. split; [by eapply call_miss_computes|].
    pose proof (call_miss_stores _ _ _ _ _ Hmiss Hcall) as Hstored.
    eexists. split; [by apply call_hit|]. split; [reflexivity|].
    intros st3 r st4 Hreload Hthird.
    eapply call_miss_computes; [|exact Hthird].
    by rewrite (reload_clears _ _ _ a Hreload).
  - intros e st1 Hcall.
    pose proof (call_miss_raises _ _ _ _ _ Hmiss Hcall) as Hstill.
    split; [by eapply call_miss_computes|]. split; [exact Hstill|].
    intros r st2. by apply call_miss_computes.
Qed.

(** ** Validation *)

Lemma validate_config_rejects {A} (valid : A → bool) fmt (f : M state A)
    st x st1 :
  f st = (Return x, st1) →
  valid x = false →
  validate_config (Some valid) fmt f st
  = (Raise (make_exn ValueError ("Invalid configuration value: " +:+ fmt x)),
     st1).
Proof.
  intros Hrun Hx. unfold validate_config, mbind, M_bind.
  by rewrite Hrun, Hx.
Qed.

(** C9. The three accessors that carry a validation predicate raise
    [ValueError] whenever the value their getter yields, stored or fallback,
    fails the predicate: [get_browser] on a name outside chrome, firefox, edge
    and safari, [get_base_url] on a text that does not start with [http],
    [get_explicit_wait_timeout] on a number that is not positive. *)
Theorem validated_accessors_reject self st :
  (cache_find self (cache_of st get_browser) = None →
   ∀ x st1,
     get_property self "BROWSER" "browser" (VStr "chrome")
       (emit (Compute get_browser) st) = (Return x, st1) →
     valid_browser x = false →
     call get_browser self st
     = (Raise (make_exn ValueError ("Invalid configuration value: " +:+ x)),
        st1))
  ∧ (cache_find self (cache_of st get_base_url) = None →
     ∀ x st1,
       get_property self "URLS" "base_url" VNone
         (emit (Compute get_base_url) st) = (Return x, st1) →
       valid_url x = false →
       call get_base_url self st
       = (Raise (make_exn ValueError ("Invalid configuration value: " +:+ x)),
          st1))
  ∧ (cache_find self (cache_of st get_explicit_wait_timeout) = None →
     ∀ x st1,
       get_int self "TIMEOUTS" "explicit_wait_timeout" 10
         (emit (Compute get_explicit_wait_timeout) st) = (Return x, st1) →
       valid_timeout x = false →
       call get_explicit_wait_timeout self st
       = (Raise (make_exn ValueError
                   ("Invalid configuration value: " +:+ str_of_int x)),
          st1)).
Proof.
  repeat split; intros Hmiss x st1 Hget Hx;
    rewrite (call_miss _ _ _ Hmiss); cbn [func]; unfold fmap, M_fmap.
  - by rewrite (validate_config_rejects valid_browser id _ _ _ _ Hget Hx).
  - by rewrite (validate_config_rejects valid_url id _ _ _ _ Hget Hx).
  - by rewrite (validate_config_rejects valid_timeout str_of_int _ _ _ _ Hget Hx).
Qed.

(** ** The singleton *)

Lemma new_again st self :
  instance st = Some self → ∀ n, new_times n st = (replicate n (Return self), st).
Proof.
  intros Hinst n. induction n as [|n IH]; [done|].
  cbn [new_times]. unfold new at 1. rewrite Hinst, IH. done.
Qed.

(** Reading a file into a new parser leaves the parser with what the file
    holds. *)
Lemma read_into_empty content : read_into empty_parser content = content.
Proof.
  destruct content as [d s]. unfold read_into, empty_parser.
  cbn [defaults sections].
  f_equal.
  - apply (right_id_L ∅ (∪)).
  - apply map_eq. intros section. rewrite lookup_union_with, lookup_empty.
    by destruct (s !! section).
Qed.

(** C7. Starting without an instance, any number of calls of
    [ConfigManager()] run [_load_config] exactly once, in the first call,
    which makes the object and reads the file into its parser. When the file
    is read to the end, the first call returns the object, whose parser then
    holds what the file holds, and every later call returns that same object
    and leaves the state, the parser included, as the first call left it.
    When there is no file or the parser gives up on it, the first call
    raises, with the object already in place, and the later calls return the
    object all the same. *)
Theorem singleton_loads_once st n :
  instance st = None →
  ∃ self first st1,
    new st = (first, st1)
    ∧ new_times (S n) st = (first :: replicate n (Return self), st1)
    ∧ self = next_ref st
    ∧ instance st1 = Some self
    ∧ occurrences Load (trace st1) = S (occurrences Load (trace st))
    ∧ match file st with
      | Wellformed content =>
          first = Return self ∧ config_of st1 self = content
      | Malformed partial complaint =>
          first = Raise (make_exn Exception
                           ("Failed to load configuration: " +:+ complaint))
          ∧ config_of st1 self = partial
      | Missing =>
          first = Raise (make_exn FileNotFoundError
                           ("Configuration file not found: "
                            +:+ FrameworkConstants.CONFIG_FILE_PATH))
          ∧ config_of st1 self = empty_parser
      end.
Proof.
  intros Hnone.
  destruct (new st) as [first st1] eqn:Hnew.
  exists (next_ref st), first, st1.
  assert (instance st1 = Some (next_ref st)) as Hinst.
  { revert Hnew. unfold new. rewrite Hnone. unfold _initialize.
    destruct (_load_config _ _) as [[[]|e] st2] eqn:Hrun; intros [= <- <-];
      by destruct (load_config_effect _ _ _ _ Hrun) as (-> & _). }
  split; [done|]. split.
  { cbn [new_times]. by rewrite Hnew, (new_again _ _ Hinst n). }
  split; [done|]. split; [done|].
  revert Hnew. unfold new. rewrite Hnone.
  unfold _initialize, _load_config, log, config_of, set_config, emit.
  cbn [file heap trace instance next_ref caches].
  rewrite lookup_insert_eq. cbn [default].
  destruct (file st) as [|partial complaint|content]; intros [= <- <-];
    cbn [heap trace]; rewrite ?lookup_insert_eq; cbn [default];
    rewrite ?read_into_empty, <- ?app_assoc, occurrences_app.
  - by rewrite occurrences_one, Nat.add_1_r.
  - by rewrite occurrences_one, Nat.add_1_r.
  - split; [|done]. rewrite occurrences_app, occurrences_one.
    unfold occurrences at 2. rewrite filter_cons_False by done. cbn. lia.
Qed.

End CachedAccessors.

Section CachedAccessorsExamples.
Import ConfigManager.

Lemma cached_accessor_computes_once_witness :
  ∃ st1 st2,
    call get_page_load_timeout 0%nat sample_state = (Return (VInt 45), st1)
    ∧ call get_page_load_timeout 0%nat st1 = (Return (VInt 45), st2)
    ∧ occurrences (Compute get_page_load_timeout) (trace st2) = 1%nat.
Proof.
  destruct (cached_accessor_computes_once get_page_load_timeout 0%nat
              sample_state) as [Hreturns _]; [reflexivity|].
  set (st1 := (call get_page_load_timeout 0%nat sample_state).2).
  assert (call get_page_load_timeout 0%nat sample_state
          = (Return (VInt 45), st1)) as Hcall by (vm_compute; reflexivity).
  destruct (Hreturns (VInt 45) st1 Hcall) as (Hocc & st2 & Hsecond & Htrace & _).
  exists st1, st2. split; [exact Hcall|]. split; [exact Hsecond|].
  rewrite Htrace, Hocc. reflexivity.
Defined.

Lemma validated_accessors_reject_witness :
  (∃ st1, call get_browser 0%nat sample_state
          = (Raise (make_exn ValueError "Invalid configuration value: opera"),
             st1))
  ∧ (∃ st1, call get_base_url 0%nat sample_state
            = (Raise (make_exn ValueError
                        "Invalid configuration value: ftp://shop.example"),
               st1))
  ∧ (∃ st1, call get_explicit_wait_timeout 0%nat sample_state
            = (Raise (make_exn ValueError "Invalid configuration value: 0"),
               st1)).
Proof.
  destruct (validated_accessors_reject 0%nat sample_state)
    as (Hbrowser & Hurl & Htimeout).
  split; [|split]; eexists.
  - apply (Hbrowser eq_refl "opera"); [vm_compute; reflexivity | reflexivity].
  - apply (Hurl eq_refl "ftp://shop.example");
      [vm_compute; reflexivity | reflexivity].
  - apply (Htimeout eq_refl 0); [vm_compute; reflexivity | reflexivity].
Defined.

(** With the sample file in place, and with no file at all. *)
Lemma singleton_loads_once_witness :
  (∃ st1,
     new_times 3 (initial (Wellformed sample_config))
     = (replicate 3 (Return 0%nat), st1)
     ∧ occurrences Load (trace st1) = 1%nat
     ∧ config_of st1 0%nat = sample_config)
  ∧ (∃ e st1,
       new_times 3 (initial Missing)
       = (Raise e :: replicate 2 (Return 0%nat), st1)
       ∧ exn_cls e = FileNotFoundError
       ∧ occurrences Load (trace st1) = 1%nat
       ∧ config_of st1 0%nat = empty_parser).
Proof.
  split.
  - destruct (singleton_loads_once (initial (Wellformed sample_config)) 2
                eq_refl)
      as (self & first & st1 & _ & Hcalls & -> & _ & Hload & -> & Hconfig).
    exists st1. split; [exact Hcalls|]. split; [exact Hload|exact Hconfig].
  - destruct (singleton_loads_once (initial Missing) 2 eq_refl)
      as (self & first & st1 & _ & Hcalls & -> & _ & Hload & -> & Hconfig).
    eexists _, st1. split; [exact Hcalls|]. split; [reflexivity|].
    split; [exact Hload|exact Hconfig].
Defined.

End CachedAccessorsExamples.

(* ===================================================================== *)
(** * Properties of DriverManager *)
(* ===================================================================== *)

Section Sessions.
Import DriverManager.
Implicit Types (st : state) (d h : handle) (s : session).

(** Starting a browser either fails with the fault that was due, or gives
    out the next handle and runs the session under it. *)
Lemma launch_cases s st :
  match launches st with
  | Some e :: rest =>
      launch s st = (Raise e, State (_driver st) (next_handle st) (live st) rest)
  | _ =>
      launch s st
      = (Return (next_handle st),
         State (_driver st) (S (next_handle st))
               (<[next_handle st := s]> (live st)) (tail (launches st)))
  end.
Proof. unfold launch. by destruct (launches st) as [|[e|] rest]. Qed.

Lemma launch_returns s st d st1 :
  launch s st = (Return d, st1) →
  d = next_handle st
  ∧ _driver st1 = _driver st
  ∧ next_handle st1 = S d
  ∧ live st1 = <[d := s]> (live st).
Proof.
  unfold launch. destruct (launches st) as [|[e|] rest]; intros [= <- <-]; done.
Qed.

Lemma launch_raises s st e st1 :
  launch s st = (Raise e, st1) →
  _driver st1 = _driver st ∧ next_handle st1 = next_handle st
  ∧ live st1 = live st.
Proof.
  unfold launch. destruct (launches st) as [|[e'|] rest]; intros [= <- <-]; done.
Qed.

(** [_create_driver] for a supported name is a launch of some session. *)
Lemma create_driver_cases browser_name headless st :
  (∃ s, _create_driver browser_name headless st = launch s st)
  ∨ _create_driver browser_name headless st
    = (Raise (make_exn ValueError
                ("Unsupported browser: " +:+ lower browser_name)), st).
Proof.
  unfold _create_driver. repeat case_bool_decide; eauto.
Qed.

Lemma create_driver_returns browser_name headless st d st1 :
  _create_driver browser_name headless st = (Return d, st1) →
  d = next_handle st
  ∧ _driver st1 = _driver st
  ∧ next_handle st1 = S d
  ∧ ∃ s, live st1 = <[d := s]> (live st).
Proof.
  destruct (create_driver_cases browser_name headless st) as [[s ->]| ->];
    [|done].
  intros (? & ? & ? & ?)%launch_returns. eauto 10.
Qed.

Lemma create_driver_raises browser_name headless st e st1 :
  _create_driver browser_name headless st = (Raise e, st1) →
  _driver st1 = _driver st ∧ next_handle st1 = next_handle st
  ∧ live st1 = live st.
Proof.
  destruct (create_driver_cases browser_name headless st) as [[s ->]| ->].
  - apply launch_raises.
  - by intros [= _ <-].
Qed.

(** What [get_driver] does, by cases on [_driver]. *)
Lemma get_driver_active browser_name headless st d :
  _driver st = Some d →
  get_driver browser_name headless st = (Return d, st).
Proof. intros Hd. unfold get_driver. by rewrite Hd. Qed.

Lemma get_driver_returns browser_name headless st d st1 :
  get_driver browser_name headless st = (Return d, st1) →
  _driver st1 = Some d
  ∧ ((_driver st = Some d ∧ st1 = st)
     ∨ (_driver st = None ∧ d = next_handle st ∧ next_handle st1 = S d
        ∧ ∃ s, live st1 = <[d := s]> (live st))).
Proof.
  unfold get_driver. destruct (_driver st) as [d0|] eqn:Hd.
  - intros [= <- <-]. auto.
  - destruct (_create_driver browser_name headless st) as [[d1|e] st'] eqn:Hc;
      intros [= <- <-].
    apply create_driver_returns in Hc as (? & ? & ? & ?). cbn. eauto 10.
Qed.

Lemma get_driver_raises browser_name headless st e st1 :
  get_driver browser_name headless st = (Raise e, st1) →
  _driver st1 = None ∧ next_handle st1 = next_handle st ∧ live st1 = live st.
Proof.
  unfold get_driver. destruct (_driver st) as [d0|] eqn:Hd; [done|].
  destruct (_create_driver browser_name headless st) as [[d1|e'] st'] eqn:Hc;
    intros [= <- <-].
  apply create_driver_raises in Hc as (? & ? & ?). by rewrite <- Hd.
Qed.

Lemma wf_initial faults : wf (initial faults).
Proof. split; cbn; [done|]. intros d. rewrite lookup_empty. by intros []. Qed.

Lemma quit_driver_active st d :
  _driver st = Some d →
  quit_driver st
  = (Return tt, State None (next_handle st) (delete d (live st)) (launches st)).
Proof. intros Hd. unfold quit_driver. by rewrite Hd. Qed.

(** A get for chrome in a state without a driver is a launch. *)
Lemma get_chrome_absent headless st :
  _driver st = None →
  match launches st with
  | Some e :: _ => ∃ st1, get_driver "chrome" headless st = (Raise e, st1)
  | _ =>
      ∃ st1,
        get_driver "chrome" headless st = (Return (next_handle st), st1)
        ∧ is_Some (live st1 !! next_handle st)
  end.
Proof.
  intros Hd. unfold get_driver. rewrite Hd.
  change (_create_driver "chrome" headless st)
    with (_create_chrome_driver headless st).
  unfold _create_chrome_driver.
  pose proof (launch_cases
                (Session Chrome
                   (["--start-maximized"; "--disable-notifications";
                     "--disable-popup-blocking"; "--disable-extensions"]
                    ++ headless_argument headless) false
                   FrameworkConstants.IMPLICIT_WAIT_TIMEOUT
                   FrameworkConstants.PAGE_LOAD_TIMEOUT) st) as Hlaunch.
  destruct (launches st) as [|[e|] rest]; rewrite Hlaunch; eexists;
    try (split; [reflexivity|]); try reflexivity;
    cbn [live]; rewrite lookup_insert_eq; by eexists.
Qed.

(** Both entry points keep the state well-formed, so every state reached
    from the initial one is. *)
Lemma wf_step r st o st1 : wf st → step r st = (o, st1) → wf st1.
Proof.
  intros [Hdrv Hlive]. destruct r as [browser_name headless|];
    cbn [step]; unfold fmap, M_fmap.
  - destruct (get_driver browser_name headless st) as [[d|e] st'] eqn:Hget;
      intros [= <- <-].
    + apply get_driver_returns in Hget
        as [Hactive [[Hd ->]|(Hd & -> & Hnext & s & Hl)]]; [by split|].
      split; intros d; rewrite Hnext.
      * rewrite Hactive. intros [= <-]. lia.
      * rewrite Hl. destruct (decide (d = next_handle st)) as [->|Hne]; [lia|].
        rewrite lookup_insert_ne by done. intros Hd'%Hlive. lia.
    + apply get_driver_raises in Hget as (Hd & Hnext & Hl).
      split; intros d; rewrite Hnext; [by rewrite Hd | rewrite Hl; auto].
  - unfold quit_driver. destruct (_driver st) as [d|] eqn:Hd;
      intros [= <- <-]; [|split; [intros d; by rewrite Hd | done]].
    split; intros d'; cbn [_driver next_handle live]; [done|].
    destruct (decide (d = d')) as [->|Hne].
    + rewrite lookup_delete_eq. by intros [].
    + rewrite lookup_delete_ne by done. auto.
Qed.

Lemma wf_run rs st outs st1 : wf st → run rs st = (outs, st1) → wf st1.
Proof.
  revert st outs. induction rs as [|r rs IH]; intros st outs Hwf; cbn [run].
  - by intros [= _ <-].
  - destruct (step r st) as [o st'] eqn:Hstep.
    destruct (run rs st') as [os st''] eqn:Hrun. intros [= _ <-].
    eapply IH; [|exact Hrun]. by eapply wf_step.
Qed.

(** C3. When a get for chrome returns a handle, every further get returns
    that same handle and changes nothing, whatever browser it names; after
    [quit_driver], a get for chrome starts a new session and returns a handle
    different from the old one (or fails with the fault the launch runs
    into). *)
Theorem get_driver_reuses_until_quit st headless h st1 :
  wf st →
  get_driver "chrome" headless st = (Return h, st1) →
  (∀ browser_name headless2,
     get_driver browser_name headless2 st1 = (Return h, st1))
  ∧ ∃ st2,
      quit_driver st1 = (Return tt, st2)
      ∧ _driver st2 = None
      ∧ live st2 !! h = None
      ∧ ∀ headless3,
          match launches st2 with
          | Some e :: _ =>
              ∃ st3, get_driver "chrome" headless3 st2 = (Raise e, st3)
          | _ =>
              ∃ h' st3,
                get_driver "chrome" headless3 st2 = (Return h', st3)
                ∧ h' ≠ h
                ∧ is_Some (live st3 !! h')
          end.
Proof.
  intros [Hwf _] Hget.
  apply get_driver_returns in Hget as [Hactive Hhow].
  assert (h < next_handle st1)%nat as Hlt.
  { destruct Hhow as [[Hd ->]|(_ & _ & -> & _)]; [by apply Hwf | lia]. }
  split; [intros; by apply get_driver_active|].
  eexists. split; [by apply quit_driver_active|].
  split; [done|]. split; [apply lookup_delete_eq|].
  intros headless3.
  pose proof (get_chrome_absent headless3
                (State None (next_handle st1) (delete h (live st1))
                       (launches st1)) eq_refl) as Hnext.
  cbn [launches next_handle] in *.
  destruct (launches st1) as [|[e|] rest]; [| exact Hnext |];
    destruct Hnext as (st3 & Hrun & Hlive);
    exists (next_handle st1), st3; (split; [exact Hrun|]);
    (split; [lia | exact Hlive]).
Qed.

(** One request keeps a retired handle retired and does not return it. *)
Lemma retired_step h r st o st1 :
  retired h st → step r st = (o, st1) →
  o ≠ Return (Some h) ∧ retired h st1.
Proof.
  intros (Hlt & Hdead & Hnot). destruct r as [browser_name headless|];
    cbn [step]; unfold fmap, M_fmap.
  - destruct (get_driver browser_name headless st) as [[d|e] st'] eqn:Hget;
      intros [= <- <-].
    + apply get_driver_returns in Hget
        as [Hactive [[Hd ->]|(Hd & -> & Hnext & s & Hlive)]].
      * split; [|done]. intros [= ->]. by apply Hnot.
      * split; [intros [= Heq]; lia|].
        split; [lia|]. split; [|rewrite Hactive; intros [= Heq]; lia].
        rewrite Hlive, lookup_insert_ne by lia. exact Hdead.
    + apply get_driver_raises in Hget as (Hd & Hnext & Hlive).
      split; [done|]. split; [lia|]. split; [by rewrite Hlive|].
      by rewrite Hd.
  - unfold quit_driver. destruct (_driver st) as [d|] eqn:Hd;
      intros [= <- <-]; (split; [done|]).
    + split; [done|]. split; [|done]. cbn [live].
      destruct (decide (d = h)) as [->|Hne];
        [apply lookup_delete_eq | by rewrite lookup_delete_ne].
    + split; [done|]. split; [done|]. by rewrite Hd.
Qed.

(** C4 (as amended). Once [quit_driver] has ended the session behind a
    handle, no sequence of gets and quits returns that handle again or makes
    it live again; the first get after the quit does not wait for any other
    step, though: it starts a new session and returns its handle, which is
    live and different from the old one. *)
Theorem retired_handle_stays_retired st h st1 :
  wf st →
  _driver st = Some h →
  quit_driver st = (Return tt, st1) →
  (∀ rs outs st2,
     run rs st1 = (outs, st2) →
     (Return (Some h) ∉ outs) ∧ retired h st2)
  ∧ (∀ browser_name headless h' st2,
       get_driver browser_name headless st1 = (Return h', st2) →
       h' ≠ h ∧ is_Some (live st2 !! h') ∧ _driver st2 = Some h').
Proof.
  intros [Hwf _] Hd Hquit.
  rewrite (quit_driver_active _ _ Hd) in Hquit. injection Hquit as <-.
  assert (retired h (State None (next_handle st) (delete h (live st))
                           (launches st))) as Hretired.
  { split; [by apply Hwf|]. split; [apply lookup_delete_eq | done]. }
  split.
  - revert Hretired.
    generalize (State None (next_handle st) (delete h (live st)) (launches st)).
    intros st1 Hretired rs. revert st1 Hretired.
    induction rs as [|r rs IH]; intros st1 Hretired outs st2; cbn [run].
    + intros [= <- <-]. split; [apply not_elem_of_nil | done].
    + destruct (step r st1) as [o st'] eqn:Hstep.
      destruct (run rs st') as [os st''] eqn:Hrun. intros [= <- <-].
      destruct (retired_step _ _ _ _ _ Hretired Hstep) as [Ho Hretired'].
      destruct (IH _ Hretired' _ _ Hrun) as [Hos Hfinal].
      split; [|done]. rewrite not_elem_of_cons. split; [congruence | done].
  - intros browser_name headless h' st2 Hget.
    apply get_driver_returns in Hget
      as [Hactive [[Hnone _]|(_ & -> & _ & s & Hlive)]]; [done|].
    cbn [next_handle live] in *. split; [apply Hwf in Hd; lia|].
    split; [|done]. rewrite Hlive, lookup_insert_eq. by eexists.
Qed.

End Sessions.

Section SessionsExamples.
Import DriverManager.

Lemma get_driver_reuses_until_quit_witness :
  ∃ st1,
    get_driver "chrome" false (initial []) = (Return 0%nat, st1)
    ∧ get_driver "firefox" true st1 = (Return 0%nat, st1)
    ∧ ∃ st2,
        quit_driver st1 = (Return tt, st2)
        ∧ ∀ headless3,
            match launches st2 with
            | Some e :: _ =>
                ∃ st3, get_driver "chrome" headless3 st2 = (Raise e, st3)
            | _ =>
                ∃ h' st3,
                  get_driver "chrome" headless3 st2 = (Return h', st3)
                  ∧ h' ≠ 0%nat
                  ∧ is_Some (live st3 !! h')
            end.
Proof.
  set (st1 := (get_driver "chrome" false (initial [])).2).
  assert (get_driver "chrome" false (initial []) = (Return 0%nat, st1))
    as Hget by reflexivity.
  destruct (get_driver_reuses_until_quit (initial []) false 0%nat st1
              (wf_initial []) Hget)
    as (Hsame & st2 & Hquit & _ & _ & Hnext).
  exists st1. split; [exact Hget|]. split; [apply Hsame|].
  exists st2. split; [exact Hquit | exact Hnext].
Defined.

(** C4, as stated, fails: from the start, a get, a quit and another get
    return handle 0, nothing, and handle 1, and the session behind handle 1 is
    running: the get after the quit has made a live handle again, with no
    other step in between. *)
Lemma get_after_quit_starts_session :
  ∃ st,
    run [Get "chrome" false; Quit; Get "chrome" false] (initial [])
    = ([Return (Some 0%nat); Return None; Return (Some 1%nat)], st)
    ∧ _driver st = Some 1%nat
    ∧ is_Some (live st !! 1%nat).
Proof.
  eexists. split; [reflexivity|]. split; [reflexivity|].
  vm_compute. by eexists.
Qed.

Lemma retired_handle_stays_retired_witness :
  ∃ outs st2,
    run [Get "firefox" true; Quit; Get "chrome" false] after_quit
    = (outs, st2)
    ∧ (Return (Some 0%nat) ∉ outs)
    ∧ retired 0%nat st2.
Proof.
  assert (wf after_get) as Hwf.
  { apply (wf_step (Get "chrome" false) (initial [])
             (Return (Some 0%nat)) after_get (wf_initial [])). reflexivity. }
  destruct (retired_handle_stays_retired after_get 0%nat after_quit Hwf
              eq_refl eq_refl) as [Hruns _].
  destruct (run [Get "firefox" true; Quit; Get "chrome" false] after_quit)
    as [outs st2] eqn:Hrun.
  exists outs, st2. split; [reflexivity|]. exact (Hruns _ _ _ Hrun).
Defined.

End SessionsExamples.

(* ===================================================================== *)
(** * Further properties of the retrying wrapper *)
(* ===================================================================== *)

Section RetryBudget.
Import BasePage.
Context {D A : Type}.
Implicit Types (op : D → outcome A * D) (func : M (world D) A).
Implicit Types (w : world D) (evs : list event).




(** X1. With a negative [max_retries] the wrapper never invokes the function:
    it returns [None] and leaves the world as it found it. *)
Theorem retry_negative_budget (n : Z) exceptions name func w :
  n < 0 →
  retry_on_exception n exceptions name func w = (Return None, w).
Proof.
  intros Hn. unfold retry_on_exception.
  by replace (Z.to_nat (n + 1)) with 0%nat by lia.
Qed.



(** While the operation keeps failing with a retried class and the budget
    is not used up, each round of the loop is one invocation, one warning and
    one pause. *)
Lemma retry_loop_skips_failures (n : Z) exceptions name op :
  ∀ (k j : nat) (attempt : Z) w dk,
    after_failures exceptions op k (browser w) = Some dk →
    attempt + Z.of_nat k ≤ n →
    ∃ evs,
      retry_loop n exceptions name (lift op) (k + j) attempt w
      = retry_loop n exceptions name (lift op) j (attempt + Z.of_nat k)
          (World dk (trace w ++ evs))
      ∧ invocations name evs = k
      ∧ pauses evs = k.
Proof.
  induction k as [|k IH]; intros j attempt w dk Hafter Hk.
  - injection Hafter as <-. exists []. destruct w as [d tr]. cbn.
    by rewrite app_nil_r, Z.add_0_r.
  - cbn [after_failures] in Hafter.
    destruct (op (browser w)) as [[a|e] d1] eqn:Hop; [done|].
    destruct (isinstance e exceptions) eqn:He; [|done].
    change (S k + j)%nat with (S (k + j)).
    rewrite retry_loop_S, lift_emit, Hop, He.
    replace (attempt =? n) with false by (symmetry; apply Z.eqb_neq; lia).
    edestruct (IH j (attempt + 1)) as (evs & Hrun & Hinv & Hp);
      [ | | rewrite Hrun ]; [exact Hafter | lia |].
    unfold emit; cbn [browser trace].
    eexists (Call name :: Log WARNING _ :: Sleep 1 :: evs).
    rewrite <- !app_assoc.
    replace (attempt + 1 + Z.of_nat k) with (attempt + Z.of_nat (S k)) by lia.
    split; [reflexivity|].
    rewrite invocations_call, invocations_log, invocations_sleep, Hinv.
    by rewrite pauses_call, pauses_log, pauses_sleep, Hp.
Qed.

(** X3. When the operation fails [k] times in a row with a retried class and
    then returns, and [k] is within the budget, the wrapper returns that
    value after exactly [k + 1] invocations and [k] pauses. *)
Theorem retry_recovers (n : Z) exceptions name op (k : nat) w dk a d' :
  Z.of_nat k ≤ n →
  after_failures exceptions op k (browser w) = Some dk →
  op dk = (Return a, d') →
  ∃ evs,
    retry_on_exception n exceptions name (lift op) w
    = (Return (Some a), World d' (trace w ++ evs))
    ∧ invocations name evs = S k
    ∧ pauses evs = k.
Proof.
  intros Hk Hafter Hop. unfold retry_on_exception.
  replace (Z.to_nat (n + 1)) with (k + S (Z.to_nat n - k))%nat by lia.
  destruct (retry_loop_skips_failures n exceptions name op k
              (S (Z.to_nat n - k)) 0 w dk Hafter)
    as (evs & -> & Hinv & Hp); [lia|].
  rewrite retry_loop_S, lift_emit. cbn [browser trace]. rewrite Hop.
  exists (evs ++ [Call name]). rewrite app_assoc. split; [done|].
  rewrite invocations_app, pauses_app, invocations_call, pauses_call, Hinv, Hp.
  cbn. lia.
Qed.

(** X4. When the operation fails [k] times in a row with a retried class and
    then with a class that is not retried, the wrapper raises that exception
    at once, after [k + 1] invocations and [k] pauses, and leaves the rest of
    the budget unused. *)
Theorem retry_gives_up_on_other_failure (n : Z) exceptions name op (k : nat)
    w dk e d' :
  Z.of_nat k ≤ n →
  after_failures exceptions op k (browser w) = Some dk →
  op dk = (Raise e, d') →
  isinstance e exceptions = false →
  ∃ evs,
    retry_on_exception n exceptions name (lift op) w
    = (Raise e, World d' (trace w ++ evs))
    ∧ invocations name evs = S k
    ∧ pauses evs = k.
Proof.
  intros Hk Hafter Hop He. unfold retry_on_exception.
  replace (Z.to_nat (n + 1)) with (k + S (Z.to_nat n - k))%nat by lia.
  destruct (retry_loop_skips_failures n exceptions name op k
              (S (Z.to_nat n - k)) 0 w dk Hafter)
    as (evs & -> & Hinv & Hp); [lia|].
  rewrite retry_loop_S, lift_emit. cbn [browser trace]. rewrite Hop, He.
  exists (evs ++ [Call name]). rewrite app_assoc. split; [done|].
  rewrite invocations_app, pauses_app, invocations_call, pauses_call, Hinv, Hp.
  cbn. lia.
Qed.

End RetryBudget.

Section RetryBudgetExamples.
Import BasePage.

Lemma retry_negative_budget_witness :
  retry_on_exception (-2) default_exceptions "click_element"
    (lift always_stale) (World tt [])
  = (Return None, World tt []).
Proof.
  apply (retry_negative_budget (-2) default_exceptions "click_element"
           (lift always_stale) (World tt [])).
  lia.
Defined.


Lemma retry_recovers_witness :
  ∃ evs,
    retry_on_exception 3 default_exceptions "get" (lift stale_twice)
      (World 0%nat [])
    = (Return (Some "done"), World 3%nat ([] ++ evs))
    ∧ invocations "get" evs = 3%nat
    ∧ pauses evs = 2%nat.
Proof.
  apply (retry_recovers 3 default_exceptions "get" stale_twice 2
           (World 0%nat []) 2%nat "done" 3%nat).
  - lia.
  - reflexivity.
  - reflexivity.
Defined.

Lemma retry_gives_up_on_other_failure_witness :
  ∃ evs,
    retry_on_exception 3 default_exceptions "get" (lift stale_then_timeout)
      (World 0%nat [])
    = (Raise timed_out, World 2%nat ([] ++ evs))
    ∧ invocations "get" evs = 2%nat
    ∧ pauses evs = 1%nat.
Proof.
  apply (retry_gives_up_on_other_failure 3 default_exceptions "get"
           stale_then_timeout 1 (World 0%nat []) 1%nat timed_out 2%nat).
  - lia.
  - reflexivity.
  - reflexivity.
  - reflexivity.
Defined.

End RetryBudgetExamples.

(* ===================================================================== *)
(** * Further properties of the page methods *)
(* ===================================================================== *)

Section PageMethods.
Import BasePage.
Context {D : Type} `{Driver D} `{Actions D}.
Implicit Types (w : world D) (loc : locator) (evs : list event).

(** X5. An exception that is not an instance of [Exception], such as
    [KeyboardInterrupt], passes through [handle_exceptions] and through
    [log_action] around it: it reaches the caller as it was raised, and
    neither decorator writes a record about it. *)
Theorem decorators_let_interrupts_through {A} (default_return : A) name
    (func : M (world D) A) w e w1 :
  func (emit (Call name)
          (emit (Call name) (emit (Log INFO ("Executing: " +:+ name)) w)))
  = (Raise e, w1) →
  isinstance e [Exception] = false →
  log_action name (handle_exceptions default_return name func) w
  = (Raise e, w1).
Proof.
  intros Hrun He. unfold log_action, handle_exceptions.
  by rewrite Hrun, He, He.
Qed.

(** X6. When the element becomes visible and its text can be read,
    [get_text] returns that text; the browser has gone through the wait and
    the read, and the log shows the call, the retrieval and the completion. *)
Theorem get_text_returns_text loc w el d1 t d2 :
  until_visible self_wait_timeout loc (browser w) = (Return el, d1) →
  text el d1 = (Return t, d2) →
  get_text loc w
  = (Return t,
     World d2
       (trace w ++
        [Log INFO "Executing: get_text"; Call "get_text"; Call "get_text";
         Log INFO ("Retrieved text from element: " +:+ str_locator loc);
         Log INFO "Completed: get_text"])).
Proof.
  intros Hwait Htext.
  unfold get_text, log_action, handle_exceptions, get_text_body, try_except.
  unfold mbind, M_bind, mret, M_ret, log, lift, emit. cbn [browser trace].
  rewrite Hwait. cbn [browser trace]. rewrite Htext. cbn [browser trace].
  by rewrite <- !app_assoc.
Qed.

(** X7. [is_element_present] answers [True] when the lookup finds the
    element and [False] when it fails with an instance of [Exception]; a
    [NoSuchElementException] leaves no trace in the log, any other
    [Exception] leaves one error record. A failure that is no [Exception]
    reaches the caller as it was raised. *)
Theorem is_element_present_cases loc w :
  match find_element loc (browser w) with
  | (Return _, d1) =>
      is_element_present loc w
      = (Return true, World d1 (trace w ++ [Call "is_element_present"]))
  | (Raise e, d1) =>
      if isinstance e [NoSuchElementException] then
        is_element_present loc w
        = (Return false, World d1 (trace w ++ [Call "is_element_present"]))
      else if isinstance e [Exception] then
        is_element_present loc w
        = (Return false,
           World d1
             (trace w ++
              [Call "is_element_present";
               Log ERROR ("Exception in is_element_present: "
                          +:+ str_exn e)]))
      else
        is_element_present loc w
        = (Raise e, World d1 (trace w ++ [Call "is_element_present"]))
  end.
Proof.
  unfold is_element_present, handle_exceptions, is_element_present_body.
  unfold try_except, mbind, M_bind, mret, M_ret, lift, emit.
  cbn [browser trace].
  destruct (find_element loc (browser w)) as [[el|e] d1] eqn:Hfind; [done|].
  destruct (isinstance e [NoSuchElementException]) eqn:Hno; [done|].
  destruct (isinstance e [Exception]) eqn:He; [|done]. cbn [browser trace].
  by rewrite <- app_assoc.
Qed.

(** X8. [is_element_displayed] answers [True] when the wait ends with the
    element visible and [False] when it fails with an instance of
    [Exception]; a timeout leaves no trace in the log, any other [Exception]
    leaves one error record. A failure that is no [Exception] reaches the
    caller as it was raised. *)
Theorem is_element_displayed_cases loc timeout w :
  match until_visible timeout loc (browser w) with
  | (Return _, d1) =>
      is_element_displayed loc timeout w
      = (Return true, World d1 (trace w ++ [Call "is_element_displayed"]))
  | (Raise e, d1) =>
      if isinstance e [TimeoutException] then
        is_element_displayed loc timeout w
        = (Return false, World d1 (trace w ++ [Call "is_element_displayed"]))
      else if isinstance e [Exception] then
        is_element_displayed loc timeout w
        = (Return false,
           World d1
             (trace w ++
              [Call "is_element_displayed";
               Log ERROR ("Exception in is_element_displayed: "
                          +:+ str_exn e)]))
      else
        is_element_displayed loc timeout w
        = (Raise e, World d1 (trace w ++ [Call "is_element_displayed"]))
  end.
Proof.
  unfold is_element_displayed, handle_exceptions, is_element_displayed_body.
  unfold try_except, mbind, M_bind, mret, M_ret, lift, emit.
  cbn [browser trace].
  destruct (until_visible timeout loc (browser w)) as [[el|e] d1] eqn:Hwait;
    [done|].
  destruct (isinstance e [TimeoutException]) eqn:Hno; [done|].
  destruct (isinstance e [Exception]) eqn:He; [|done]. cbn [browser trace].
  by rewrite <- app_assoc.
Qed.






Lemma timeout_outside_default_exceptions msg :
  isinstance (make_exn TimeoutException msg) default_exceptions = false.
Proof. reflexivity. Qed.

Lemma timeout_is_exception msg :
  isinstance (make_exn TimeoutException msg) [Exception] = true.
Proof. reflexivity. Qed.

(** X10. A timeout while waiting for the element to be clickable is not
    retried: [click_element] enters its body once, does not pause, and raises
    a [TimeoutException] that names the locator. *)
Theorem click_element_timeout_not_retried loc w e d1 :
  until_clickable self_wait_timeout loc (browser w) = (Raise e, d1) →
  isinstance e [TimeoutException] = true →
  click_element loc w
  = (Raise (make_exn TimeoutException
              ("Element not clickable: " +:+ str_locator loc)),
     World d1
       (trace w ++
        [Log INFO "Executing: click_element";
         Call "click_element"; Call "click_element";
         Log ERROR ("Element not clickable within timeout: "
                    +:+ str_locator loc);
         Log ERROR ("Failed: click_element - Error: "
                    +:+ "Element not clickable: " +:+ str_locator loc)])).
Proof.
  intros Hwait He.
  unfold click_element, log_action, retry_on_exception.
  change (Z.to_nat (3 + 1)) with 4%nat. rewrite retry_loop_S.
  unfold click_element_body at 1, try_except, mbind, M_bind, log, raise, lift.
  unfold emit. cbn [browser trace]. rewrite Hwait, He. cbn [browser trace].
  rewrite timeout_outside_default_exceptions, timeout_is_exception.
  unfold str_exn. cbn [browser trace exn_msg make_exn].
  by rewrite <- !app_assoc.
Qed.

(** X11. [wait_for_element_to_disappear] returns [True] when the wait ends,
    [False] when it times out, and lets every other failure through to the
    caller. *)
Theorem wait_for_element_to_disappear_cases loc timeout w :
  match until_not_present timeout loc (browser w) with
  | (Return _, _) =>
      ∃ w1, wait_for_element_to_disappear loc timeout w = (Return true, w1)
  | (Raise e, _) =>
      if isinstance e [TimeoutException] then
        ∃ w1, wait_for_element_to_disappear loc timeout w = (Return false, w1)
      else
        ∃ w1, wait_for_element_to_disappear loc timeout w = (Raise e, w1)
  end.
Proof.
  unfold wait_for_element_to_disappear, log_action, try_except.
  unfold mbind, M_bind, mret, M_ret, lift, emit. cbn [browser trace].
  destruct (until_not_present timeout loc (browser w)) as [[[]|e] d1];
    [by eexists|].
  destruct (isinstance e [TimeoutException]); [by eexists|].
  destruct (isinstance e [Exception]); by eexists.
Qed.

End PageMethods.

(* ===================================================================== *)
(** * Properties of the page objects *)
(* ===================================================================== *)

Section PageObjects.
Import BasePage.
Context {D : Type} `{Driver D} `{Actions D}.
Implicit Types (w : world D) (loc : locator).

(** X12. [HomePage.is_user_signed_in] answers [False] exactly when the
    text it reads contains [sign in] in any letter case. It answers [True]
    whenever the text could not be read because the wait or the read failed
    with an instance of [Exception]; a failure that is no [Exception]
    reaches the caller. *)
Theorem is_user_signed_in_answers w :
  (HomePage.is_user_signed_in w).1
  = match ((until_visible self_wait_timeout HomePage.SIGN_IN_TEXT ≫= text
            : M D string) (browser w)).1 with
    | Return t => Return (negb (is_substring "sign in" (lower t)))
    | Raise e => if isinstance e [Exception] then Return true else Raise e
    end.
Proof.
  pose proof (get_text_outcome HomePage.SIGN_IN_TEXT w) as Hrun.
  revert Hrun.
  generalize ((until_visible self_wait_timeout HomePage.SIGN_IN_TEXT ≫= text
               : M D string) (browser w)).1.
  intros r Hrun.
  unfold HomePage.is_user_signed_in, mbind, M_bind, mret, M_ret.
  destruct (get_text HomePage.SIGN_IN_TEXT w) as [[v|e] w'];
    cbn [fst] in Hrun |- *; destruct r as [t|e']; cbn [guarded] in Hrun;
    try destruct (isinstance e' [Exception]); by simplify_eq.
Qed.

(** X13. The [except] clause of [LoginPage.get_error_message] is never
    taken: the method does exactly what [get_text] does on the locator of the
    error message. *)
Theorem get_error_message_is_get_text w :
  LoginPage.get_error_message w = get_text LoginPage.ERROR_MESSAGE w.
Proof.
  unfold LoginPage.get_error_message, try_except.
  destruct (get_text LoginPage.ERROR_MESSAGE w) as [[v|e] w'] eqn:Hrun;
    [done|].
  apply get_text_raises in Hrun.
  by rewrite (outside_exception_uncaught e Hrun).
Qed.

(** X14. [HomePage.is_page_displayed] answers [True] exactly when the logo
    and then the search box become visible, and [False] when one of the two
    waits fails with an instance of [Exception]; a failure that is no
    [Exception] reaches the caller. When the wait for the logo fails, the
    search box is not waited for. *)
Theorem home_page_displayed_answers w :
  (HomePage.is_page_displayed w).1
  = match until_visible 5 HomePage.AMAZON_LOGO (browser w) with
    | (Return _, d1) =>
        guarded false
          (((λ _, true) <$> until_visible 5 HomePage.SEARCH_BOX : M D bool)
             d1).1
    | (Raise e, _) => guarded false (Raise e)
    end
  ∧ browser (HomePage.is_page_displayed w).2
    = match until_visible 5 HomePage.AMAZON_LOGO (browser w) with
      | (Return _, d1) => (until_visible 5 HomePage.SEARCH_BOX d1).2
      | (Raise _, d1) => d1
      end.
Proof.
  pose proof (is_element_displayed_outcome HomePage.AMAZON_LOGO 5 w) as Hlogo.
  pose proof (is_element_displayed_browser HomePage.AMAZON_LOGO 5 w) as Hd.
  unfold HomePage.is_page_displayed, mbind, M_bind.
  destruct (is_element_displayed HomePage.AMAZON_LOGO 5 w) as [[logo|e] w1].
  - cbn [fst snd] in Hlogo, Hd. revert Hlogo Hd. unfold fmap, M_fmap.
    destruct (until_visible 5 HomePage.AMAZON_LOGO (browser w))
      as [[el|e] d1]; cbn [fst snd guarded].
    + intros [= ->] Hd.
      rewrite is_element_displayed_outcome, is_element_displayed_browser.
      by rewrite Hd.
    + destruct (isinstance e [Exception]); [|done]. by intros [= ->] Hd.
  - cbn [fst snd] in Hlogo, Hd. revert Hlogo Hd. unfold fmap, M_fmap.
    destruct (until_visible 5 HomePage.AMAZON_LOGO (browser w))
      as [[el|e'] d1]; cbn [fst snd guarded]; [done|].
    destruct (isinstance e' [Exception]); [done|]. by intros [= ->] Hd.
Qed.

(** X15. [LoginPage.wait_for_password_field] has no guard around it: it
    answers [True] when the field shows up and [False] on a timeout, but any
    other failure of the wait reaches the caller, also one on which
    [is_element_displayed] on the same locator answers [False], as it does
    on every instance of [Exception]. *)
Theorem wait_for_password_field_cases timeout w :
  match until_visible timeout LoginPage.PASSWORD_FIELD (browser w) with
  | (Return _, d1) =>
      LoginPage.wait_for_password_field timeout w
      = (Return true, World d1 (trace w))
  | (Raise e, d1) =>
      if isinstance e [TimeoutException] then
        LoginPage.wait_for_password_field timeout w
        = (Return false, World d1 (trace w))
      else
        LoginPage.wait_for_password_field timeout w
        = (Raise e, World d1 (trace w))
        ∧ (is_element_displayed LoginPage.PASSWORD_FIELD timeout w).1
          = if isinstance e [Exception] then Return false else Raise e
  end.
Proof.
  pose proof (is_element_displayed_outcome LoginPage.PASSWORD_FIELD timeout w)
    as Hguarded. revert Hguarded.
  unfold LoginPage.wait_for_password_field, try_except.
  unfold mbind, M_bind, mret, M_ret, fmap, M_fmap, lift.
  destruct (until_visible timeout LoginPage.PASSWORD_FIELD (browser w))
    as [[el|e] d1] eqn:Hwait; [done|].
  destruct (isinstance e [TimeoutException]) eqn:He; [done|].
  by intros ->.
Qed.

End PageObjects.

(* ===================================================================== *)
(** * Further properties of ConfigManager *)
(* ===================================================================== *)

Section Configuration.
Import ConfigManager.
Implicit Types (st : state) (self : ref) (a : accessor).
Implicit Types (cfg old new : ConfigParser) (section key : string).

(** X16. With nothing stored for them and nothing cached, the validated
    accessors with a fallback return it, since the fallbacks pass their own
    validation: [get_browser] returns chrome and
    [get_explicit_wait_timeout] returns 10. [get_base_url] has no fallback
    and raises [KeyError]. *)
Theorem validated_accessors_defaults self st :
  (cache_find self (cache_of st get_browser) = None →
   stored (config_of st self) "BROWSER" "browser" = None →
   ∃ st1, call get_browser self st = (Return (VStr "chrome"), st1))
  ∧ (cache_find self (cache_of st get_explicit_wait_timeout) = None →
     stored (config_of st self) "TIMEOUTS" "explicit_wait_timeout" = None →
     ∃ st1,
       call get_explicit_wait_timeout self st = (Return (VInt 10), st1))
  ∧ (cache_find self (cache_of st get_base_url) = None →
     stored (config_of st self) "URLS" "base_url" = None →
     ∃ e st1,
       call get_base_url self st = (Raise e, st1) ∧ exn_cls e = KeyError).
Proof.
  repeat split; intros Hmiss Hs; rewrite (call_miss _ _ _ Hmiss);
    cbn [func]; unfold fmap, M_fmap, validate_config, mbind, M_bind.
  - unfold get_property, try_except, on_config.
    destruct (parser_get_absent _ _ _ Hs) as (e & He & Hc).
    change (config_of (emit (Compute get_browser) st) self)
      with (config_of st self).
    rewrite He, Hc. cbn. by eexists.
  - unfold get_int, getint.
    rewrite typed_getter_absent by exact Hs. cbn. by eexists.
  - unfold get_property, try_except, on_config.
    destruct (parser_get_absent _ _ _ Hs) as (e & He & Hc).
    change (config_of (emit (Compute get_base_url) st) self)
      with (config_of st self).
    rewrite He, Hc. cbn. by eexists _, _.
Qed.

(** A hit leaves the value in the cache. *)
Lemma call_hit_keeps a self st v :
  cache_find self (cache_of st a) = Some v →
  ∃ st1,
    call a self st = (Return v, st1)
    ∧ cache_find self (cache_of st1 a) = Some v
    ∧ trace st1 = trace st
    ∧ heap st1 = heap st
    ∧ file st1 = file st.
Proof.
  intros Hhit. eexists. split; [by apply call_hit|].
  split; [|done]. unfold cache_of at 1. cbn [set_caches caches].
  rewrite lookup_insert_eq.
  change (cache_find self ((self, v) :: cache_remove self (cache_of st a))
          = Some v).
  cbn [cache_find]. by rewrite bool_decide_eq_true_2.
Qed.

(** X17. Once a value is cached for an accessor, every further call returns
    that value, without reading the parser and without any event, whatever
    the parser holds by then. *)
Theorem cached_value_is_served a self st v (n : nat) :
  cache_find self (cache_of st a) = Some v →
  ∃ st1,
    call_times n a self st = (replicate n (Return v), st1)
    ∧ trace st1 = trace st
    ∧ heap st1 = heap st.
Proof.
  revert st. induction n as [|n IH]; intros st Hhit; [by exists st|].
  destruct (call_hit_keeps _ _ _ _ Hhit)
    as (st1 & Hcall & Hkeep & Htrace & Hheap & _).
  destruct (IH st1 Hkeep) as (st2 & Hrest & Htrace2 & Hheap2).
  exists st2. cbn [call_times replicate]. rewrite Hcall, Hrest.
  split; [done|]. split; congruence.
Qed.

(** X18. When the configuration file is missing, [reload_config] raises
    [FileNotFoundError] before it gets to the caches: the cached values and
    the parser stay as they were. *)
Theorem reload_without_file_keeps_caches self st :
  file st = Missing →
  ∃ e st1,
    reload_config self st = (Raise e, st1)
    ∧ exn_cls e = FileNotFoundError
    ∧ caches st1 = caches st
    ∧ heap st1 = heap st.
Proof.
  intros Hfile. unfold reload_config, mbind, M_bind, _load_config.
  cbn [emit file]. rewrite Hfile. by eexists _, _.
Qed.

(** X19. A first [ConfigManager()] that fails to load is not tried again:
    the call raises [FileNotFoundError], but the object is in place with an
    empty parser, and every later call returns it without loading, also once
    the file is there. *)
Theorem failed_first_load_is_kept st :
  instance st = None →
  file st = Missing →
  ∃ e st1,
    new st = (Raise e, st1)
    ∧ exn_cls e = FileNotFoundError
    ∧ config_of st1 (next_ref st) = empty_parser
    ∧ ∀ f, new (with_file f st1) = (Return (next_ref st), with_file f st1).
Proof.
  intros Hnone Hfile. unfold new, _initialize, _load_config.
  rewrite Hnone. cbn [emit set_config file]. rewrite Hfile.
  eexists _, _. split; [reflexivity|]. split; [reflexivity|]. split.
  - unfold config_of, emit, set_config. cbn [heap].
    by rewrite lookup_insert_eq.
  - intros f. reflexivity.
Qed.

(** What [read_into] leaves under a section and key. *)
Lemma unify_values_read_into old new section :
  unify_values (read_into old new) section
  = match sections new !! section, sections old !! section with
    | Some n, Some o => Some ((n ∪ o) ∪ (defaults new ∪ defaults old))
    | Some n, None => Some (n ∪ (defaults new ∪ defaults old))
    | None, Some o => Some (o ∪ (defaults new ∪ defaults old))
    | None, None =>
        if bool_decide (section = DEFAULTSECT)
        then Some (defaults new ∪ defaults old) else None
    end.
Proof.
  unfold unify_values, read_into. cbn [sections defaults].
  rewrite lookup_union_with.
  by destruct (sections new !! section), (sections old !! section).
Qed.

Lemma stored_read_into_new old new section key d s :
  sections new !! section = Some d →
  d !! optionxform key = Some s →
  stored (read_into old new) section key = Some s.
Proof.
  intros Hsec Hkey. unfold stored. rewrite unify_values_read_into, Hsec.
  destruct (sections old !! section); cbn;
    repeat (apply lookup_union_Some_l); done.
Qed.

Lemma stored_read_into_old old new section key s :
  stored old section key = Some s →
  is_Some (stored (read_into old new) section key).
Proof.
  unfold stored at 1, unify_values at 1. intros Hold.
  unfold stored. rewrite unify_values_read_into.
  destruct (sections old !! section) as [o|] eqn:Ho; cbn in Hold.
  - apply lookup_union_Some_raw in Hold.
    destruct (sections new !! section) as [n|]; cbn;
      rewrite !lookup_union_is_Some; destruct Hold as [Hold|[_ Hold]]; eauto.
  - case_bool_decide as Hdef; [|done]. cbn in Hold.
    destruct (sections new !! section) as [n|]; cbn;
      rewrite !lookup_union_is_Some; eauto.
Qed.

Lemma load_config_wellformed self st content :
  file st = Wellformed content →
  _load_config self st
  = (Return tt,
     emit (Log INFO ("Configuration loaded from: "
                     +:+ FrameworkConstants.CONFIG_FILE_PATH))
       (set_config self (read_into (config_of st self) content)
          (emit Load st))).
Proof. intros Hfile. unfold _load_config. cbn [emit file]. by rewrite Hfile. Qed.

Lemma cache_clear_all_heap (l : list accessor) st :
  heap (foldl (λ s a, cache_clear a s) st l) = heap st.
Proof.
  revert st. induction l as [|x l IH]; intros st; [done|].
  cbn [foldl]. by rewrite IH.
Qed.

Lemma clear_caches_result st r st1 :
  clear_caches st = (r, st1) → r = Return tt ∧ heap st1 = heap st.
Proof.
  intros Hrun. split.
  - by apply (f_equal fst) in Hrun.
  - replace st1 with (clear_caches st).2 by (by rewrite Hrun).
    apply (cache_clear_all_heap cached_methods st).
Qed.

Lemma reload_with_file self st content :
  file st = Wellformed content →
  ∃ st1,
    reload_config self st = (Return tt, st1)
    ∧ config_of st1 self = read_into (config_of st self) content
    ∧ ∀ a, cache_of st1 a = [].
Proof.
  intros Hfile.
  assert (∃ st1, reload_config self st = (Return tt, st1)
                 ∧ config_of st1 self = read_into (config_of st self) content)
    as (st1 & Hrun & Hcfg).
  { unfold reload_config, mbind, M_bind.
    rewrite (load_config_wellformed _ _ _ Hfile).
    destruct (clear_caches _) as [r st2] eqn:Hclear.
    apply clear_caches_result in Hclear as [-> Hheap].
    unfold log. eexists. split; [reflexivity|].
    unfold config_of, emit. cbn [heap]. rewrite Hheap.
    unfold emit, set_config. cbn [heap]. by rewrite lookup_insert_eq. }
  exists st1. split; [done|]. split; [exact Hcfg|].
  intros a. by apply (reload_clears self st).
Qed.

(** X20. After a reload from a file that is read to the end,
    [get_page_load_timeout] returns the number the file now gives in its
    [TIMEOUTS] section, whatever was cached before. *)
Theorem reload_shows_new_value self st content d s n :
  file st = Wellformed content →
  sections content !! "TIMEOUTS" = Some d →
  d !! "page_load_timeout" = Some s →
  int_of_str s = Some n →
  ∃ st1 st2,
    reload_config self st = (Return tt, st1)
    ∧ call get_page_load_timeout self st1 = (Return (VInt n), st2).
Proof.
  intros Hfile Hsec Hkey Hint.
  destruct (reload_with_file self st content Hfile)
    as (st1 & Hreload & Hcfg & Hcaches).
  exists st1. eexists. split; [exact Hreload|].
  rewrite call_miss by (by rewrite Hcaches).
  cbn [func]. unfold fmap, M_fmap, get_int, getint.
  rewrite (typed_getter_stored _ _ _ _ _ _ _ s).
  - rewrite Hint. reflexivity.
  - change (config_of (emit (Compute get_page_load_timeout) st1) self)
      with (config_of st1 self).
    rewrite Hcfg. by eapply stored_read_into_new.
  - by eapply int_of_str_without_percent.
Qed.

(** X21. A reload adds to the parser and never takes away: a key that had a
    value before a completed reload still has one after it, also when the
    file no longer mentions it. *)
Theorem reload_keeps_old_keys self st content section key s :
  file st = Wellformed content →
  stored (config_of st self) section key = Some s →
  ∃ st1,
    reload_config self st = (Return tt, st1)
    ∧ is_Some (stored (config_of st1 self) section key).
Proof.
  intros Hfile Hold.
  destruct (reload_with_file self st content Hfile)
    as (st1 & Hreload & Hcfg & _).
  exists st1. split; [exact Hreload|]. rewrite Hcfg.
  by eapply stored_read_into_old.
Qed.

End Configuration.

(* ===================================================================== *)
(** * Further properties of DriverManager *)
(* ===================================================================== *)

Section Lifecycle.
Import DriverManager.
Implicit Types (st : state) (d h : handle) (s : session).

Lemma lower_ascii_idemp (c : ascii) :
  lower_ascii (lower_ascii c) = lower_ascii c.
Proof. by destruct c as [[] [] [] [] [] [] [] []]. Qed.

Lemma lower_idemp (x : string) : lower (lower x) = lower x.
Proof.
  induction x as [|c x IH]; [done|]. cbn [lower].
  by rewrite lower_ascii_idemp, IH.
Qed.

(** X22. The browser name is matched without regard to letter case:
    [get_driver] does for a name what it does for the name in lower case. *)
Theorem get_driver_ignores_case browser_name headless st :
  get_driver browser_name headless st
  = get_driver (lower browser_name) headless st.
Proof.
  unfold get_driver, _create_driver. by rewrite lower_idemp.
Qed.

(** X23. While there is no driver, a name other than chrome, firefox and
    edge makes [get_driver] raise [ValueError] with the name in lower case,
    and nothing changes. That holds for safari, which the validation of
    [ConfigManager.get_browser] accepts. *)
Theorem get_driver_rejects_other_browsers browser_name headless st :
  _driver st = None →
  lower browser_name ∉ ["chrome"; "firefox"; "edge"] →
  get_driver browser_name headless st
  = (Raise (make_exn ValueError
              ("Unsupported browser: " +:+ lower browser_name)), st)
  ∧ (lower browser_name = "safari" →
     ConfigManager.valid_browser browser_name = true).
Proof.
  intros Hd Hother. split.
  - unfold get_driver, _create_driver. rewrite Hd.
    rewrite !bool_decide_eq_false_2; [done|..];
      intros Heq; apply Hother; rewrite Heq;
      unfold FrameworkConstants.CHROME_BROWSER,
        FrameworkConstants.FIREFOX_BROWSER, FrameworkConstants.EDGE_BROWSER;
      set_solver.
  - intros Hsafari. unfold ConfigManager.valid_browser. rewrite Hsafari.
    reflexivity.
Qed.

Lemma headless_argument_in (pre : list string) headless :
  "--headless" ∉ pre →
  "--headless" ∈ pre ++ headless_argument headless ↔ headless = true.
Proof.
  intros Hpre. rewrite elem_of_app. destruct headless; cbn.
  - split; [done|]. intros _. right. by apply list_elem_of_singleton.
  - split; [|done]. intros [Hin|Hin]; [done|]. by apply elem_of_nil in Hin.
Qed.

(** X26. A driver that [get_driver] creates runs the browser that the name
    asks for, with an implicit wait of 5 and a page load timeout of 30
    seconds, and with the [--headless] argument exactly when headless mode
    was asked for. *)
Theorem created_session_settings browser_name headless st d st1 :
  _driver st = None →
  get_driver browser_name headless st = (Return d, st1) →
  ∃ s,
    live st1 !! d = Some s
    ∧ implicit_wait s = 5
    ∧ page_load_timeout s = 30
    ∧ ("--headless" ∈ arguments s ↔ headless = true)
    ∧ (kind s = Chrome ↔ lower browser_name = "chrome")
    ∧ (kind s = Firefox ↔ lower browser_name = "firefox")
    ∧ (kind s = Edge ↔ lower browser_name = "edge").
Proof.
  intros Hd. unfold get_driver. rewrite Hd.
  destruct (_create_driver browser_name headless st) as [[d0|e] st0] eqn:Hc;
    intros [= <- <-]. cbn [live]. revert Hc.
  unfold _create_driver.
  unfold FrameworkConstants.CHROME_BROWSER,
    FrameworkConstants.FIREFOX_BROWSER, FrameworkConstants.EDGE_BROWSER.
  assert (∀ l : list string,
            Forall (λ x, x ≠ "--headless") l → "--headless" ∉ l) as Hnotin.
  { intros l Hl Hin. rewrite Forall_forall in Hl. by apply (Hl _ Hin). }
  case_bool_decide as Hchrome; [|case_bool_decide as Hfirefox;
                                  [|case_bool_decide as Hedge; [|done]]].
  - unfold _create_chrome_driver. intros Hl.
    apply launch_returns in Hl as (-> & Hdrv & Hnext & ->).
    eexists. split; [apply lookup_insert_eq|].
    cbn [implicit_wait page_load_timeout arguments kind].
    split; [done|]. split; [done|].
    split; [apply headless_argument_in, Hnotin; by repeat constructor|].
    repeat split; intros; congruence.
  - unfold _create_firefox_driver. intros Hl.
    apply launch_returns in Hl as (-> & Hdrv & Hnext & ->).
    eexists. split; [apply lookup_insert_eq|].
    cbn [implicit_wait page_load_timeout arguments kind].
    split; [done|]. split; [done|].
    split; [apply (headless_argument_in []), Hnotin; constructor|].
    repeat split; intros; congruence.
  - unfold _create_edge_driver. intros Hl.
    apply launch_returns in Hl as (-> & Hdrv & Hnext & ->).
    eexists. split; [apply lookup_insert_eq|].
    cbn [implicit_wait page_load_timeout arguments kind].
    split; [done|]. split; [done|].
    split; [apply headless_argument_in, Hnotin; by repeat constructor|].
    repeat split; intros; congruence.
Qed.

End Lifecycle.

(* ===================================================================== *)
(** * The further properties on the sample page, configuration and driver *)
(* ===================================================================== *)

Section PageExamples.
Import BasePage.

Lemma decorators_let_interrupts_through_witness :
  log_action "get_text"
    (handle_exceptions "" "get_text" (raise interrupted)) sample_world
  = (Raise interrupted,
     emit (Call "get_text")
       (emit (Call "get_text")
          (emit (Log INFO ("Executing: " +:+ "get_text")) sample_world))).
Proof.
  apply (decorators_let_interrupts_through "" "get_text" (raise interrupted)
           sample_world interrupted); reflexivity.
Defined.

Lemma get_text_returns_text_witness :
  get_text ("id", "nav-logo") sample_world
  = (Return "amazon",
     World (browser sample_world)
       (trace sample_world ++
        [Log INFO "Executing: get_text"; Call "get_text"; Call "get_text";
         Log INFO ("Retrieved text from element: "
                   +:+ str_locator ("id", "nav-logo"));
         Log INFO "Completed: get_text"])).
Proof.
  apply (get_text_returns_text ("id", "nav-logo") sample_world 0%nat
           (browser sample_world) "amazon" (browser sample_world));
    reflexivity.
Defined.


Lemma click_element_timeout_not_retried_witness :
  click_element ("id", "missing") sample_world
  = (Raise (make_exn TimeoutException
              ("Element not clickable: " +:+ str_locator ("id", "missing"))),
     World (browser sample_world)
       (trace sample_world ++
        [Log INFO "Executing: click_element";
         Call "click_element"; Call "click_element";
         Log ERROR ("Element not clickable within timeout: "
                    +:+ str_locator ("id", "missing"));
         Log ERROR ("Failed: click_element - Error: "
                    +:+ "Element not clickable: "
                    +:+ str_locator ("id", "missing"))])).
Proof.
  apply (click_element_timeout_not_retried ("id", "missing") sample_world
           (make_exn TimeoutException "") (browser sample_world));
    reflexivity.
Defined.

End PageExamples.

Section ConfigurationExamples.
Import ConfigManager.

Lemma validated_accessors_defaults_witness :
  (∃ st1, call get_browser 0%nat (initial Missing)
          = (Return (VStr "chrome"), st1))
  ∧ (∃ st1, call get_explicit_wait_timeout 0%nat (initial Missing)
            = (Return (VInt 10), st1))
  ∧ (∃ e st1, call get_base_url 0%nat (initial Missing) = (Raise e, st1)
              ∧ exn_cls e = KeyError).
Proof.
  destruct (validated_accessors_defaults 0%nat (initial Missing))
    as (Hbrowser & Htimeout & Hurl).
  split; [|split].
  - apply Hbrowser; reflexivity.
  - apply Htimeout; reflexivity.
  - apply Hurl; reflexivity.
Defined.

Lemma cached_value_is_served_witness :
  ∃ st1,
    call_times 3 get_page_load_timeout 0%nat
      (call get_page_load_timeout 0%nat sample_state).2
    = (replicate 3 (Return (VInt 45)), st1)
    ∧ trace st1 = trace (call get_page_load_timeout 0%nat sample_state).2
    ∧ heap st1 = heap (call get_page_load_timeout 0%nat sample_state).2.
Proof.
  apply (cached_value_is_served get_page_load_timeout 0%nat
           (call get_page_load_timeout 0%nat sample_state).2 (VInt 45) 3).
  vm_compute. reflexivity.
Defined.

Lemma reload_without_file_keeps_caches_witness :
  ∃ e st1,
    reload_config 0%nat (with_file Missing sample_state) = (Raise e, st1)
    ∧ exn_cls e = FileNotFoundError
    ∧ caches st1 = caches (with_file Missing sample_state)
    ∧ heap st1 = heap (with_file Missing sample_state).
Proof.
  apply (reload_without_file_keeps_caches 0%nat
           (with_file Missing sample_state)).
  reflexivity.
Defined.

Lemma failed_first_load_is_kept_witness :
  ∃ e st1,
    new (initial Missing) = (Raise e, st1)
    ∧ exn_cls e = FileNotFoundError
    ∧ config_of st1 (next_ref (initial Missing)) = empty_parser
    ∧ ∀ f, new (with_file f st1)
           = (Return (next_ref (initial Missing)), with_file f st1).
Proof.
  apply (failed_first_load_is_kept (initial Missing)); reflexivity.
Defined.

Lemma reload_shows_new_value_witness :
  ∃ st1 st2,
    reload_config 0%nat (with_file (Wellformed edited_config) sample_state)
    = (Return tt, st1)
    ∧ call get_page_load_timeout 0%nat st1 = (Return (VInt 60), st2).
Proof.
  apply (reload_shows_new_value 0%nat
           (with_file (Wellformed edited_config) sample_state) edited_config
           {[ "page_load_timeout" := "60" ]} "60" 60);
    vm_compute; reflexivity.
Defined.

Lemma reload_keeps_old_keys_witness :
  ∃ st1,
    reload_config 0%nat (with_file (Wellformed edited_config) sample_state)
    = (Return tt, st1)
    ∧ is_Some (stored (config_of st1 0%nat) "URLS" "base_url").
Proof.
  apply (reload_keeps_old_keys 0%nat
           (with_file (Wellformed edited_config) sample_state) edited_config
           "URLS" "base_url" "ftp://shop.example").
  - reflexivity.
  - vm_compute. reflexivity.
Defined.

End ConfigurationExamples.

Section LifecycleExamples.
Import DriverManager.

Lemma get_driver_rejects_other_browsers_witness :
  get_driver "Safari" false (initial [])
  = (Raise (make_exn ValueError ("Unsupported browser: " +:+ lower "Safari")),
     initial [])
  ∧ (lower "Safari" = "safari" → ConfigManager.valid_browser "Safari" = true).
Proof.
  apply (get_driver_rejects_other_browsers "Safari" false (initial []));
    [reflexivity|].
  intros Hin. repeat (apply elem_of_cons in Hin as [Hin|Hin];
                      [discriminate Hin|]).
  by apply elem_of_nil in Hin.
Defined.

Lemma created_session_settings_witness :
  ∃ s,
    live (get_driver "Firefox" true (initial [])).2 !! 0%nat = Some s
    ∧ implicit_wait s = 5
    ∧ page_load_timeout s = 30
    ∧ ("--headless" ∈ arguments s ↔ true = true)
    ∧ (kind s = Chrome ↔ lower "Firefox" = "chrome")
    ∧ (kind s = Firefox ↔ lower "Firefox" = "firefox")
    ∧ (kind s = Edge ↔ lower "Firefox" = "edge").
Proof.
  apply (created_session_settings "Firefox" true (initial []) 0%nat
           (get_driver "Firefox" true (initial [])).2); reflexivity.
Defined.

End LifecycleExamples.
